(** * RustyJS: Option, Result and Iterator

    A shallow embedding of [src/option.ts], [src/result.ts] and
    [src/iterator.ts], followed by the properties of the three classes.

    Conventions of the embedding.
    - TypeScript type parameters are erased at run time.  The two containers
      are modelled over the universe [value] of JavaScript run-time values
      (primitives and object references), because [Some.equals] compares with
      [===] and [toJSON] stores the wrapped value in an object literal.
    - Of the JavaScript numbers the model has the integers, as [Z], and the
      two numbers on which [===] is not plain equality, NaN and negative
      zero.  Integer arithmetic is exact on doubles up to 2^53 in magnitude;
      where the code counts ([Iterator.range]) the increment on doubles is
      modelled beside the exact one.  Fractions and infinities are outside
      the model.
    - A method that can [throw] or that calls a function it was given runs in
      the monad [Js], which threads the world the callbacks act on and counts
      every invocation of a callback.
    - The iterator is generic in its element type, and reading an array
      outside its bounds yields [undefined], written [None].  The mutable
      cursor is threaded explicitly: every method returns its result together
      with the receiver as the call leaves it.  The functions passed to the
      iterator are pure functions of their arguments; where the code hands
      them to an array method they are called, as there, with the element,
      its index and the array.
    - [Option.flatten], which returns the wrapped value under a cast, has no
      counterpart here. *)

From Stdlib Require Import ZArith Lia.
From stdpp Require Import base option list strings gmap pretty.
From Equations Require Import Equations.

Local Open Scope Z_scope.

(** ** JavaScript run-time values *)

Module Js.

(** Identity of a heap-allocated object. *)
Definition loc := positive.

Inductive value : Type :=
| undefined
| null
| boolean (b : bool)
| number (n : Z)
| NaN
| negative_zero
| str (s : string)
| object (ref : loc).

Global Instance value_eq_dec : EqDecision value.
Proof. solve_decision. Defined.

(** The properties of an object (an object literal, or an array through
    its index keys), and the heap that maps references to them. *)
Abbreviation properties := (gmap string value).
Abbreviation heap := (gmap loc (gmap string value)).

(** [a === b]: no conversion; primitives of the same type are compared by
    value, objects by reference.  On numbers, NaN is equal to nothing, itself
    included, and the two zeros, [number 0] and [negative_zero], are equal to
    each other. *)
Definition strict_equals (a b : value) : bool :=
  match a, b with
  | undefined, undefined => true
  | null, null => true
  | boolean x, boolean y => Bool.eqb x y
  | number x, number y => Z.eqb x y
  | number x, negative_zero => Z.eqb x 0
  | negative_zero, number y => Z.eqb 0 y
  | negative_zero, negative_zero => true
  | str x, str y => String.eqb x y
  | object x, object y => Pos.eqb x y
  | _, _ => false
  end.

(** The two zeros. *)
Definition is_zero (v : value) : bool :=
  match v with
  | number n => Z.eqb n 0
  | negative_zero => true
  | _ => false
  end.

(** The values that [??] replaces: [null] and [undefined]. *)
Class Nullish (T : Type) := nullish : T → bool.
Global Instance value_nullish : Nullish value :=
  λ v, match v with
       | undefined | null => true
       | _ => false
       end.
Global Instance Z_nullish : Nullish Z := λ _, false.
Global Instance string_nullish : Nullish string := λ _, false.
Global Instance bool_nullish : Nullish bool := λ _, false.

(** [x ?? null] for what an array read or search returned; [None] is
    [undefined] on the way in and [null] on the way out. *)
Definition coalesce_null `{Nullish T} (x : option T) : option T :=
  match x with
  | Some v => if nullish v then None else Some v
  | None => None
  end.

Definition is_primitive (v : value) : bool :=
  match v with
  | object _ => false
  | _ => true
  end.

(** [new Error(message)] *)
Record Error : Type := new_Error { message : string }.

(** How the evaluation of a call ends: with a value, or with a [throw]. *)
Inductive completion (A : Type) : Type :=
| Normal (a : A)
| Throw (e : Error).
Global Arguments Normal {A} a.
Global Arguments Throw {A} e.

(** What a computation can change: the world [W] its callbacks act on
    (left abstract), instrumented with the number of callback invocations
    made so far. *)
Record state (W : Type) : Type :=
  mkState { world : W; invocations : nat }.
Global Arguments mkState {W} world invocations.
Global Arguments world {W} s.
Global Arguments invocations {W} s.

Definition Js (W A : Type) : Type := state W → completion A * state W.

Definition ret {W A} (a : A) : Js W A := λ s, (Normal a, s).

Definition throw {W A} (e : Error) : Js W A := λ s, (Throw e, s).

Definition bind {W A B} (k : A → Js W B) (m : Js W A) : Js W B :=
  λ s, match m s with
       | (Normal a, s') => k a s'
       | (Throw e, s') => (Throw e, s')
       end.

Global Instance Js_ret {W} : MRet (Js W) := λ A, ret.
Global Instance Js_bind {W} : MBind (Js W) := λ A B, bind.

(** A function value received as an argument: it may read and change the
    world and may throw. *)
Definition callback (W A B : Type) : Type := A → W → completion B * W.

(** [fn(a)] *)
Definition invoke {W A B} (fn : callback W A B) (a : A) : Js W B :=
  λ s, let '(r, w) := fn a (world s) in
       (r, mkState w (S (invocations s))).

End Js.

Import Js.

(** ** Integers as doubles *)

Module Number.

(** The integers from -2^53 to 2^53: every one of them is a double, and the
    sum of one of them and 1 is computed exactly as long as it stays among
    them. *)
Definition safe (z : Z) : Prop := - 2 ^ 53 ≤ z ≤ 2 ^ 53.

(** The double nearest to the integer [z], as an integer: [z] itself up to
    2^53 in magnitude; beyond, the mantissa keeps the 53 leading bits of [z]
    and the rest is rounded off, to the nearest, a tie going to the even
    mantissa. *)
Definition round (z : Z) : Z :=
  let m := Z.abs z in
  if m <=? 2 ^ 53 then z
  else
    let q := 2 ^ (Z.log2 m - 52) in
    let mantissa := m / q in
    let rest := m - mantissa * q in
    let up := (q <? 2 * rest) || ((q =? 2 * rest) && Z.odd mantissa) in
    Z.sgn z * ((if up then mantissa + 1 else mantissa) * q).

(** An integer that is a double. *)
Definition representable (z : Z) : Prop := round z = z.

(** The value of [i] after [i++]. *)
Definition increment (i : Z) : Z := round (i + 1).

End Number.

Global Arguments Number.round : simpl never.
Global Arguments Number.increment : simpl never.

(** ** [src/option.ts] *)

Module Option.

(** The abstract class [Option<T>] with its two subclasses. *)
Inductive Option : Type :=
| new_Some (value : value)
| new_None.

(** The static factories [Option.Some] and [Option.None]. *)
Definition Some (value : value) : Option := new_Some value.
Definition None : Option := new_None.

Definition isSome (this : Option) : bool :=
  match this with
  | new_Some _ => true
  | new_None => false
  end.

Definition isNone (this : Option) : bool :=
  match this with
  | new_Some _ => false
  | new_None => true
  end.

Definition unwrap {W} (this : Option) : Js W value :=
  match this with
  | new_Some value => mret value
  | new_None => throw (new_Error "Called unwrap on a None value.")
  end.

Definition unwrapOrDefault (this : Option) (defaultValue : value) : value :=
  match this with
  | new_Some value => value
  | new_None => defaultValue
  end.

Definition unwrapOrElse {W} (this : Option) (fn : callback W unit value)
  : Js W value :=
  match this with
  | new_Some value => mret value
  | new_None => invoke fn ()
  end.

Definition map {W} (this : Option) (fn : callback W value value)
  : Js W Option :=
  match this with
  | new_Some value => u ← invoke fn value; mret (Some u)
  | new_None => mret None
  end.

Definition flatMap {W} (this : Option) (fn : callback W value Option)
  : Js W Option :=
  match this with
  | new_Some value => invoke fn value
  | new_None => mret None
  end.

Definition expect {W} (this : Option) (message : string) : Js W value :=
  match this with
  | new_Some value => mret value
  | new_None => throw (new_Error message)
  end.

Definition get (this : Option) : value :=
  match this with
  | new_Some value => value
  | new_None => null
  end.

Definition andThen {W} (this : Option) (fn : callback W value Option)
  : Js W Option :=
  match this with
  | new_Some value => invoke fn value
  | new_None => mret None
  end.

Definition filter {W} (this : Option) (predicate : callback W value bool)
  : Js W Option :=
  match this with
  | new_Some value =>
      keep ← invoke predicate value;
      mret (if keep : bool then this else None)
  | new_None => mret None
  end.

(** [other.isSome() && this.value === other.unwrap()] for [Some], with the
    short circuit of [&&]; [other.isNone()] for [None]. *)
Definition equals {W} (this other : Option) : Js W bool :=
  match this with
  | new_Some value =>
      if isSome other
      then w ← unwrap other; mret (strict_equals value w)
      else mret false
  | new_None => mret (isNone other)
  end.

(** The object literal returned by [toJSON], as its own properties. *)
Definition toJSON (this : Option) : properties :=
  match this with
  | new_Some value => {[ "type" := str "Some"; "value" := value ]}
  | new_None => {[ "type" := str "None" ]}
  end.

Definition match_ {W U} (this : Option)
    (onSome : callback W value U) (onNone : callback W unit U) : Js W U :=
  match this with
  | new_Some value => invoke onSome value
  | new_None => invoke onNone ()
  end.

End Option.

(** ** [src/result.ts] *)

Module Result.

(** The abstract class [Result<T, E>] with its two subclasses. *)
Inductive Result : Type :=
| new_Ok (value : value)
| new_Err (error : value).

(** The static factories [Result.Ok] and [Result.Err]. *)
Definition Ok (value : value) : Result := new_Ok value.
Definition Err (error : value) : Result := new_Err error.

Definition isOk (this : Result) : bool :=
  match this with
  | new_Ok _ => true
  | new_Err _ => false
  end.

Definition isErr (this : Result) : bool :=
  match this with
  | new_Ok _ => false
  | new_Err _ => true
  end.

Definition unwrap {W} (this : Result) : Js W value :=
  match this with
  | new_Ok value => mret value
  | new_Err _ => throw (new_Error "Called unwrap on an error.")
  end.

Definition unwrapOrDefault (this : Result) (defaultValue : value) : value :=
  match this with
  | new_Ok value => value
  | new_Err _ => defaultValue
  end.

Definition unwrapOrElse {W} (this : Result) (fn : callback W value value)
  : Js W value :=
  match this with
  | new_Ok value => mret value
  | new_Err error => invoke fn error
  end.

Definition expect {W} (this : Result) (message : string) : Js W value :=
  match this with
  | new_Ok value => mret value
  | new_Err _ => throw (new_Error message)
  end.

Definition getErr {W} (this : Result) : Js W value :=
  match this with
  | new_Ok _ => throw (new_Error "Called getErr on an Ok value.")
  | new_Err error => mret error
  end.

(** On [Err] both [map] and [flatMap] are [Result.Err(this.getErr())]. *)
Definition map {W} (this : Result) (fn : callback W value value)
  : Js W Result :=
  match this with
  | new_Ok value => u ← invoke fn value; mret (Ok u)
  | new_Err _ => e ← getErr this; mret (Err e)
  end.

Definition flatMap {W} (this : Result) (fn : callback W value Result)
  : Js W Result :=
  match this with
  | new_Ok value => invoke fn value
  | new_Err _ => e ← getErr this; mret (Err e)
  end.

End Result.

(** ** JavaScript arrays, by their contents *)

Module Array.

Section Elements.
Context {T : Type}.

(** [items.length] *)
Definition length (items : list T) : Z := Z.of_nat (List.length items).

(** [items[i]]: reading outside the array yields [undefined], which is
    [None] here; no read throws. *)
Definition get (items : list T) (i : Z) : option T :=
  if 0 <=? i then items !! Z.to_nat i else None.

(** [items.push(x)] *)
Definition push (items : list T) (x : T) : list T := items ++ [x].

(** [items.concat(more)] *)
Definition concat (items more : list T) : list T := items ++ more.

(** A relative index of [slice]: negative indices count from the end,
    and the result is clamped to [0, len]. *)
Definition clamp (len k : Z) : Z :=
  if k <? 0 then Z.max (len + k) 0 else Z.min k len.

(** [items.slice(start, end)]; [end] absent means the length. *)
Definition slice (items : list T) (start : Z) (end_ : option Z) : list T :=
  let len := length items in
  let k := clamp len start in
  let final := match end_ with
               | Some e => clamp len e
               | None => len
               end in
  take (Z.to_nat (final - k)) (drop (Z.to_nat k) items).

(** The array methods below call the function they are given with three
    arguments: the element, its index and the array itself.  Each is a walk
    over the elements from position [index] on, with the array fixed in the
    function. *)

(** [items.filter(predicate)] *)
Fixpoint filter_from (predicate : T → Z → bool) (items : list T) (index : Z)
  : list T :=
  match items with
  | [] => []
  | value :: rest =>
      if predicate value index
      then value :: filter_from predicate rest (index + 1)
      else filter_from predicate rest (index + 1)
  end.
Definition filter (predicate : T → Z → list T → bool) (items : list T)
  : list T :=
  filter_from (λ value index, predicate value index items) items 0.

(** [items.find(predicate)]; [None] is [undefined], nothing found. *)
Fixpoint find_from (predicate : T → Z → bool) (items : list T) (index : Z)
  : option T :=
  match items with
  | [] => None
  | value :: rest =>
      if predicate value index
      then Some value
      else find_from predicate rest (index + 1)
  end.
Definition find (predicate : T → Z → list T → bool) (items : list T)
  : option T :=
  find_from (λ value index, predicate value index items) items 0.

(** [items.some(predicate)] and [items.every(predicate)] *)
Fixpoint some_from (predicate : T → Z → bool) (items : list T) (index : Z)
  : bool :=
  match items with
  | [] => false
  | value :: rest =>
      if predicate value index
      then true
      else some_from predicate rest (index + 1)
  end.
Definition some (predicate : T → Z → list T → bool) (items : list T) : bool :=
  some_from (λ value index, predicate value index items) items 0.
Fixpoint every_from (predicate : T → Z → bool) (items : list T) (index : Z)
  : bool :=
  match items with
  | [] => true
  | value :: rest =>
      if predicate value index
      then every_from predicate rest (index + 1)
      else false
  end.
Definition every (predicate : T → Z → list T → bool) (items : list T) : bool :=
  every_from (λ value index, predicate value index items) items 0.

(** [items.reduce(fn, initialValue)]: [fn] is called with the accumulator,
    the element, its index and the array. *)
Fixpoint reduce_from {U} (fn : U → T → Z → U) (items : list T) (index : Z)
    (accumulator : U) : U :=
  match items with
  | [] => accumulator
  | value :: rest =>
      reduce_from fn rest (index + 1) (fn accumulator value index)
  end.
Definition reduce {U} (fn : U → T → Z → list T → U) (initialValue : U)
    (items : list T) : U :=
  reduce_from (λ accumulator value index, fn accumulator value index items)
    items 0 initialValue.

(** [items.forEach((value, index) => ...)] where the arrow function
    assigns to variables of the enclosing method: [s] is the value of
    those variables, [body value index s] their value after one call. *)
Fixpoint forEach_from {S} (body : T → Z → S → S)
    (items : list T) (index : Z) (s : S) : S :=
  match items with
  | [] => s
  | value :: rest => forEach_from body rest (index + 1) (body value index s)
  end.
Definition forEach {S} (body : T → Z → S → S) (items : list T) (s : S) : S :=
  forEach_from body items 0 s.

(** [items.map((value, index) => ...)] *)
Fixpoint map_from {U} (fn : T → Z → U) (items : list T) (index : Z)
  : list U :=
  match items with
  | [] => []
  | value :: rest => fn value index :: map_from fn rest (index + 1)
  end.
Definition map_indexed {U} (fn : T → Z → U) (items : list T) : list U :=
  map_from fn items 0.

(** [items.map(fn)] with a function received from the caller, which is
    called with the element, its index and the array. *)
Definition map {U} (fn : T → Z → list T → U) (items : list T) : list U :=
  map_from (λ value index, fn value index items) items 0.

End Elements.

End Array.

(** ** [src/iterator.ts] *)

Module Iterator.

(** The two private fields of the class. *)
Record Iterator (T : Type) : Type :=
  mkIterator { items : list T; index : Z }.
Global Arguments mkIterator {T} items index.
Global Arguments items {T} this : rename.
Global Arguments index {T} this : rename.

(** [new Iterator(items)]: the field initialiser sets the cursor to 0. *)
Definition new_Iterator {T} (items : list T) : Iterator T :=
  mkIterator items 0.

(** A method called on a receiver yields its result and the receiver as
    the call leaves it. *)
Definition method (T R : Type) : Type := Iterator T → R * Iterator T.

Global Instance method_ret {T} : MRet (method T) := λ R r this, (r, this).
Global Instance method_bind {T} : MBind (method T) :=
  λ A B k m this, let '(a, this') := m this in k a this'.

Definition this_items {T} : method T (list T) := λ this, (items this, this).
Definition this_index {T} : method T Z := λ this, (index this, this).
Definition set_index {T} (i : Z) : method T unit :=
  λ this, ((), mkIterator (items this) i).

(** The result of a call, and the receiver after it. *)
Definition result {T R} (m : method T R) (this : Iterator T) : R := (m this).1.
Definition receiver {T R} (m : method T R) (this : Iterator T) : Iterator T :=
  (m this).2.

Definition from {T} (items : list T) : Iterator T := new_Iterator items.

(** The loop [for (let i = start; i < end; i++) items.push(i)] with [i++]
    computed exactly, and the value of [items] when it is left.  It ends
    because the distance from [i] to [end] shrinks with every turn.  This is
    the loop of the code as long as [i] stays within 2^53 of 0; the loop on
    doubles is [range_loop_double] below. *)
Equations? range_loop (i end_ : Z) (items : list Z) : list Z
  by wf (Z.to_nat (end_ - i)) lt :=
  range_loop i end_ items with Z_lt_dec i end_ := {
    | left _ => range_loop (i + 1) end_ (Array.push items i);
    | right _ => items }.
Proof. lia. Qed.

(** [Iterator.range(start, end?)] with exact counting: with [end] absent,
    the only argument is the end and the start is 0. *)
Definition range (start : Z) (end_ : option Z) : Iterator Z :=
  let '(start, end_) :=
    match end_ with
    | None => (0, start)
    | Some end_ => (start, end_)
    end in
  new_Iterator (range_loop start end_ []).

(** The same loop as the engine runs it, on doubles: [i++] rounds, and from
    2^53 on it may leave [i] where it was, so the loop need not end.  [fuel]
    bounds the number of tests of [i < end], and [None] says that the loop
    was still running when the bound was reached.  [i] and [end] are
    integers that are doubles. *)
Fixpoint range_loop_double (fuel : nat) (i end_ : Z) (items : list Z)
  : option (list Z) :=
  match fuel with
  | O => None
  | S fuel' =>
      if i <? end_
      then range_loop_double fuel' (Number.increment i) end_ (Array.push items i)
      else Some items
  end.

(** [Iterator.range(start, end?)] on doubles. *)
Definition range_double (fuel : nat) (start : Z) (end_ : option Z)
  : option (Iterator Z) :=
  let '(start, end_) :=
    match end_ with
    | None => (0, start)
    | Some end_ => (start, end_)
    end in
  new_Iterator <$> range_loop_double fuel start end_ [].

Section Methods.
Context {T : Type}.

Definition hasNext : method T bool :=
  i ← this_index; l ← this_items; mret (i <? Array.length l).

(** [this.items[this.index++]] *)
Definition next : method T (option T) :=
  i ← this_index; set_index (i + 1);; l ← this_items; mret (Array.get l i).

Definition peek : method T (option T) :=
  i ← this_index; l ← this_items; mret (Array.get l i).

(** [index] is an integer; the message is the one the template literal
    builds for integers between -2^53 and 2^53, which it prints in
    decimal. *)
Definition peekAt (index : Z) : method T (completion (option T)) :=
  l ← this_items;
  mret (if (index <? 0) || (Array.length l <=? index)
        then Throw (new_Error ("Index out of bounds: " +:+ pretty index))
        else Normal (Array.get l index)).

Definition reset : method T unit := set_index 0.

(** [map], [filter], [find], [forEach], [collect], [reduce], [count], [any]
    and [all] hand the function they receive to the array method, which
    calls it with the element, its index and the backing array. *)
Definition map {U} (fn : T → Z → list T → U) : method T (Iterator U) :=
  l ← this_items; mret (new_Iterator (Array.map fn l)).

Definition filter (predicate : T → Z → list T → bool) : method T (Iterator T) :=
  l ← this_items; mret (new_Iterator (Array.filter predicate l)).

(** [this.items.find(predicate) ?? null]: a found element that is [null]
    or [undefined] comes back as [null], as when nothing is found; [None] is
    [null] here. *)
Definition find `{!Nullish T} (predicate : T → Z → list T → bool)
  : method T (option T) :=
  l ← this_items; mret (coalesce_null (Array.find predicate l)).

(** [fn] is called for what it does to the state [S] of its closure. *)
Definition forEach {S} (fn : T → Z → list T → S → S) (s : S) : method T S :=
  l ← this_items; mret (Array.forEach (λ value index, fn value index l) l s).

(** [fn ? this.items.map(fn) : this.items] *)
Definition collect {U} (fn : option (T → Z → list T → U))
  : method T (list (match fn with Some _ => U | None => T end)) :=
  l ← this_items;
  mret (match fn as fn
              return list (match fn with Some _ => U | None => T end) with
        | Some fn => Array.map fn l
        | None => l
        end).

Definition reduce {U} (fn : U → T → Z → list T → U) (initialValue : U)
  : method T U :=
  l ← this_items; mret (Array.reduce fn initialValue l).

Definition count (predicate : option (T → Z → list T → bool)) : method T Z :=
  l ← this_items;
  mret (match predicate with
        | Some predicate => Array.length (Array.filter predicate l)
        | None => Array.length l
        end).

Definition any (predicate : T → Z → list T → bool) : method T bool :=
  l ← this_items; mret (Array.some predicate l).

Definition all (predicate : T → Z → list T → bool) : method T bool :=
  l ← this_items; mret (Array.every predicate l).

End Methods.

Definition chain {T U} (fn : T → Iterator U) : method T (Iterator U) :=
    l ← this_items;
    mret (new_Iterator
            (Array.forEach
               (λ value _ result_,
                  Array.concat result_
                    (result (collect (Some (λ value _ _, value))) (fn value)))
               l [])).

Section Methods.
Context {T : Type}.

Definition skip (n : Z) : method T (Iterator T) :=
  l ← this_items; mret (new_Iterator (Array.slice l n None)).

Definition take (n : Z) : method T (Iterator T) :=
  l ← this_items; mret (new_Iterator (Array.slice l 0 (Some n))).

(** The loop [while (test(this.items[index])) index++], started at
    [index], with the value of [index] when it is left.  The test also
    receives [undefined] ([None]) once [index] is past the end, so the
    loop need not end: [fuel] bounds the number of tests, and [None] says
    that the loop was still running when the bound was reached. *)
Fixpoint while_loop (fuel : nat) (test : option T → bool)
    (items : list T) (index : Z) : option Z :=
  match fuel with
  | O => None
  | S fuel' =>
      if test (Array.get items index)
      then while_loop fuel' test items (index + 1)
      else Some index
  end.

Definition skipWhile (fuel : nat) (predicate : option T → bool)
  : method T (option (Iterator T)) :=
  l ← this_items;
  mret (index ← while_loop fuel predicate l 0;
        Some (new_Iterator (Array.slice l index None))).

Definition takeWhile (fuel : nat) (predicate : option T → bool)
  : method T (option (Iterator T)) :=
  l ← this_items;
  mret (index ← while_loop fuel predicate l 0;
        Some (new_Iterator (Array.slice l 0 (Some index)))).

Definition enumerate : method T (Iterator (Z * T)) :=
  l ← this_items;
  mret (new_Iterator (Array.map_indexed (λ value index, (index, value)) l)).

(** In the four pairing methods the element of [other] is read with
    [other.items[index]], whatever the length of [other]. *)
Definition zip {U} (other : Iterator U) : method T (Iterator (T * option U)) :=
  l ← this_items;
  mret (new_Iterator
          (Array.map_indexed
             (λ value index, (value, Array.get (items other) index)) l)).

Definition chainWith {U} (other : Iterator U)
  : method T (Iterator (T * option U)) :=
  l ← this_items;
  mret (new_Iterator
          (Array.forEach
             (λ value index result_,
                Array.push result_ (value, Array.get (items other) index))
             l [])).

Definition collectInto {U V} (other : Iterator U) (fn : T → option U → V)
  : method T (list V) :=
  l ← this_items;
  mret (Array.forEach
          (λ value index result_,
             Array.push result_ (fn value (Array.get (items other) index)))
          l []).

Definition collectWith {U} (other : Iterator U)
  : method T (list (T * option U)) :=
  l ← this_items;
  mret (Array.forEach
          (λ value index result_,
             Array.push result_ (value, Array.get (items other) index))
          l []).

Definition collectWhile (fuel : nat) (predicate : option T → bool)
  : method T (option (list T)) :=
  l ← this_items;
  mret (index ← while_loop fuel predicate l 0;
        Some (Array.slice l 0 (Some index))).

Definition collectUntil (fuel : nat) (predicate : option T → bool)
  : method T (option (list T)) :=
  l ← this_items;
  mret (index ← while_loop fuel (λ x, negb (predicate x)) l 0;
        Some (Array.slice l 0 (Some index))).

End Methods.

(** *** Histories of one iterator

    The calls a client can make on an iterator, one constructor for each
    public method with the arguments of the call. *)
Inductive call (T : Type) : Type :=
| call_hasNext
| call_next
| call_peek
| call_peekAt (index : Z)
| call_reset
| call_map {U} (fn : T → Z → list T → U)
| call_filter (predicate : T → Z → list T → bool)
| call_find (nullish : Nullish T) (predicate : T → Z → list T → bool)
| call_forEach {S} (fn : T → Z → list T → S → S) (s : S)
| call_collect {U} (fn : option (T → Z → list T → U))
| call_reduce {U} (fn : U → T → Z → list T → U) (initialValue : U)
| call_count (predicate : option (T → Z → list T → bool))
| call_any (predicate : T → Z → list T → bool)
| call_all (predicate : T → Z → list T → bool)
| call_chain {U} (fn : T → Iterator U)
| call_skip (n : Z)
| call_take (n : Z)
| call_skipWhile (fuel : nat) (predicate : option T → bool)
| call_takeWhile (fuel : nat) (predicate : option T → bool)
| call_enumerate
| call_zip {U} (other : Iterator U)
| call_chainWith {U} (other : Iterator U)
| call_collectInto {U V} (other : Iterator U) (fn : T → option U → V)
| call_collectWith {U} (other : Iterator U)
| call_collectWhile (fuel : nat) (predicate : option T → bool)
| call_collectUntil (fuel : nat) (predicate : option T → bool).
Global Arguments call_hasNext {T}.
Global Arguments call_next {T}.
Global Arguments call_peek {T}.
Global Arguments call_peekAt {T} index.
Global Arguments call_reset {T}.
Global Arguments call_map {T U} fn.
Global Arguments call_filter {T} predicate.
Global Arguments call_find {T} nullish predicate.
Global Arguments call_forEach {T S} fn s.
Global Arguments call_collect {T U} fn.
Global Arguments call_reduce {T U} fn initialValue.
Global Arguments call_count {T} predicate.
Global Arguments call_any {T} predicate.
Global Arguments call_all {T} predicate.
Global Arguments call_chain {T U} fn.
Global Arguments call_skip {T} n.
Global Arguments call_take {T} n.
Global Arguments call_skipWhile {T} fuel predicate.
Global Arguments call_takeWhile {T} fuel predicate.
Global Arguments call_enumerate {T}.
Global Arguments call_zip {T U} other.
Global Arguments call_chainWith {T U} other.
Global Arguments call_collectInto {T U V} other fn.
Global Arguments call_collectWith {T U} other.
Global Arguments call_collectWhile {T} fuel predicate.
Global Arguments call_collectUntil {T} fuel predicate.

(** The receiver after one call. *)
Definition perform {T} (c : call T) (this : Iterator T) : Iterator T :=
  match c with
  | call_hasNext => receiver hasNext this
  | call_next => receiver next this
  | call_peek => receiver peek this
  | call_peekAt index => receiver (peekAt index) this
  | call_reset => receiver reset this
  | call_map fn => receiver (map fn) this
  | call_filter predicate => receiver (filter predicate) this
  | call_find nullish predicate => receiver (find predicate) this
  | call_forEach fn s => receiver (forEach fn s) this
  | call_collect fn => receiver (collect fn) this
  | call_reduce fn initialValue => receiver (reduce fn initialValue) this
  | call_count predicate => receiver (count predicate) this
  | call_any predicate => receiver (any predicate) this
  | call_all predicate => receiver (all predicate) this
  | call_chain fn => receiver (chain fn) this
  | call_skip n => receiver (skip n) this
  | call_take n => receiver (take n) this
  | call_skipWhile fuel predicate => receiver (skipWhile fuel predicate) this
  | call_takeWhile fuel predicate => receiver (takeWhile fuel predicate) this
  | call_enumerate => receiver enumerate this
  | call_zip other => receiver (zip other) this
  | call_chainWith other => receiver (chainWith other) this
  | call_collectInto other fn => receiver (collectInto other fn) this
  | call_collectWith other => receiver (collectWith other) this
  | call_collectWhile fuel predicate =>
      receiver (collectWhile fuel predicate) this
  | call_collectUntil fuel predicate =>
      receiver (collectUntil fuel predicate) this
  end.

(** The receiver after a history of calls, oldest first. *)
Definition run {T} (calls : list (call T)) (this : Iterator T) : Iterator T :=
  fold_left (λ this c, perform c this) calls this.

(** A history in which the client calls [next] only where [hasNext]
    answers true. *)
Fixpoint guarded {T} (calls : list (call T)) (this : Iterator T) : bool :=
  match calls with
  | [] => true
  | c :: rest =>
      match c with
      | call_next => result hasNext this
      | _ => true
      end
      && guarded rest (perform c this)
  end.

(** The cursor lies in [0, length]. *)
Definition cursor_in_range {T} (this : Iterator T) : Prop :=
  0 ≤ index this ≤ Array.length (items this).

End Iterator.



(** The arrow function [x => x < 3]: [undefined < 3] is false. *)
Definition less_than_3 (x : option Z) : bool :=
  match x with
  | Some x => x <? 3
  | None => false
  end.

(** ** Callers

    Arrow functions and call chains that clients write around the three
    classes. *)

Module Client.

(** What a caller observes of a computation: how it completes and the
    world it leaves. *)
Definition outcome {W A} (m : Js W A) (s : state W) : completion A * W :=
  ((m s).1, world (m s).2).

(** An arrow function [a => f(a)] whose body neither touches the world nor
    throws. *)
Definition pure {W A B} (f : A → B) : callback W A B :=
  λ a w, (Normal (f a), w).

(** The arrow function [a => g(f(a))]. *)
Definition compose {W A B C} (f : callback W A B) (g : callback W B C)
  : callback W A C :=
  λ a w, match f a w with
         | (Normal b, w') => g b w'
         | (Throw e, w') => (Throw e, w')
         end.

(** An arrow function [a => body] whose body calls methods of the classes:
    the body runs in the world of the call and hands back the world it
    leaves. *)
Definition arrow {W A B} (body : A → Js W B) : callback W A B :=
  λ a w, let '(r, s) := body a (mkState w 0) in (r, world s).

(** A function of the element alone, as the arrow function [x => f(x)] is:
    it ignores the index and the array it is called with. *)
Definition unary {T U} (f : T → U) : T → Z → list T → U := λ x _ _, f x.

(** A reducer of the accumulator and the element alone, as
    [(acc, x) => f(acc, x)] is. *)
Definition binary {T U} (f : U → T → U) : U → T → Z → list T → U :=
  λ acc x _ _, f acc x.

(** The call chain [r.flatMap(f1).flatMap(f2)...], one [flatMap] for each
    function of the list. *)
Fixpoint flatMap_all {W} (fns : list (callback W value Result.Result))
    (r : Result.Result) : Js W Result.Result :=
  match fns with
  | [] => mret r
  | fn :: rest => r' ← Result.flatMap r fn; flatMap_all rest r'
  end.

(** [n] calls of [next] in a row, with what they return. *)
Fixpoint nexts {T} (n : nat) : Iterator.method T (list (option T)) :=
  match n with
  | O => mret []
  | S n' => x ← Iterator.next; xs ← nexts n'; mret (x :: xs)
  end.

End Client.

(** * Properties *)

(** ** Strict equality *)

Lemma strict_equals_spec (a b : value) :
  strict_equals a b = true
  ↔ a ≠ NaN ∧ (a = b ∨ (is_zero a = true ∧ is_zero b = true)).
Proof.
  split.
  - destruct a, b; simpl; intros H; try done; (split; [done|]);
      first [ left; f_equal;
              first [ by apply Bool.eqb_prop | by apply Z.eqb_eq
                    | by apply String.eqb_eq | by apply Pos.eqb_eq ]
            | by left
            | right; split; simpl; try done; apply Z.eqb_eq in H; by subst ].
  - intros [Hnan [<-|[Ha Hb]]].
    + destruct a; simpl; try done;
        first [ apply Bool.eqb_reflx | apply Z.eqb_refl
              | apply String.eqb_refl | apply Pos.eqb_refl ].
    + destruct a, b; simpl in *; try done;
        repeat match goal with
               | H : (_ =? _) = true |- _ => apply Z.eqb_eq in H; subst
               end; done.
Qed.

Lemma strict_equals_objects (l1 l2 : loc) :
  strict_equals (object l1) (object l2) = bool_decide (l1 = l2).
Proof.
  simpl. case_bool_decide as H.
  - by apply Pos.eqb_eq.
  - by apply Pos.eqb_neq.
Qed.

(** ** The optional container *)

(** C1, as the code has it: the tag that [toJSON] writes is the name of the
    subclass.  For every value [v], the object serialised from [Some v] has
    exactly the two fields [type], holding the string ["Some"], and [value],
    holding [v]; the object serialised from [None] has the single field
    [type], holding the string ["None"], and no [value] field. *)
Theorem toJSON_tagged (v : value) :
  Option.toJSON (Option.Some v) = {[ "type" := str "Some"; "value" := v ]}
  ∧ Option.toJSON (Option.Some v) !! "type" = Some (str "Some")
  ∧ Option.toJSON (Option.Some v) !! "value" = Some v
  ∧ dom (Option.toJSON (Option.Some v)) = {[ "type"; "value" ]}
  ∧ Option.toJSON Option.None = {[ "type" := str "None" ]}
  ∧ Option.toJSON Option.None !! "type" = Some (str "None")
  ∧ Option.toJSON Option.None !! "value" = None.
Proof.
  repeat split.
Qed.

(** C1, as the specification words it, fails: the [type] field of a
    serialised [Some] is not ["Present"], and that of a serialised [None] is
    not ["Absent"]. *)
Lemma toJSON_tag_is_not_Present_or_Absent :
  Option.toJSON (Option.Some (number 42)) !! "type" ≠ Some (str "Present")
  ∧ Option.toJSON Option.None !! "type" ≠ Some (str "Absent").
Proof. split; simpl; [rewrite lookup_insert_eq | rewrite lookup_singleton_eq]; discriminate. Qed.

(** C4: [unwrap] on [Some v] returns [v]; [unwrap] on [None] throws, with the
    generic message of the class; [expect] on [None] throws an error whose
    message is exactly the one the caller passed.  None of them touches the
    state.  The class throws plain [Error] objects: the failure that the
    specification calls EmptyValueError is this [throw]. *)
Theorem unwrap_expect_spec {W} (v : value) (message : string) (s : state W) :
  Option.unwrap (Option.Some v) s = (Normal v, s)
  ∧ Option.unwrap Option.None s
    = (Throw (new_Error "Called unwrap on a None value."), s)
  ∧ Option.expect Option.None message s = (Throw (new_Error message), s)
  ∧ Option.expect (Option.Some v) message s = (Normal v, s).
Proof. done. Qed.

(** [equals] on two [Some] is [===] on the wrapped values. *)
Lemma equals_Some_Some {W} (v w : value) (s : state W) :
  Option.equals (Option.Some v) (Option.Some w) s
  = (Normal (strict_equals v w), s).
Proof. done. Qed.

(** C10, as the code has it: on two [Some], [equals] is [===] on the wrapped
    values.  It is true exactly when both wrap the same primitive value
    other than NaN, or each wraps one of the two zeros, or both wrap the same
    object reference; so [Some(NaN)] is not equal to [Some(NaN)], and
    [Some(0)] is equal to [Some(-0)].  Two [Some] that wrap different
    references are unequal even when the heap holds the same properties under
    both; and on two options that are both [None], however they were
    obtained, [equals] is true. *)
Theorem equals_strict_identity {W} (s : state W) :
  (∀ v w, Option.equals (Option.Some v) (Option.Some w) s
          = (Normal (strict_equals v w), s))
  ∧ (∀ v w, Option.equals (Option.Some v) (Option.Some w) s = (Normal true, s)
            ↔ (is_primitive v = true ∧ v ≠ NaN ∧ v = w)
              ∨ (is_zero v = true ∧ is_zero w = true)
              ∨ (∃ l, v = object l ∧ w = object l))
  ∧ Option.equals (Option.Some NaN) (Option.Some NaN) s = (Normal false, s)
  ∧ Option.equals (Option.Some (number 0)) (Option.Some negative_zero) s
    = (Normal true, s)
  ∧ (∀ (h : heap) l1 l2,
        l1 ≠ l2 → h !! l1 = h !! l2 →
        Option.equals (Option.Some (object l1)) (Option.Some (object l2)) s
        = (Normal false, s))
  ∧ (∀ a b, Option.isNone a = true → Option.isNone b = true →
            Option.equals a b s = (Normal true, s)).
Proof.
  split; [done|]. split; [|split; [done|split; [done|split]]].
  - intros v w. rewrite equals_Some_Some. split.
    + intros [= H]. apply strict_equals_spec in H as [Hnan [<-|Hzero]].
      * destruct v; eauto.
      * by right; left.
    + intros H. do 2 f_equal. apply strict_equals_spec.
      destruct H as [(_ & Hnan & <-)|[[Hv Hw]|(l & -> & ->)]].
      * split; [done|by left].
      * split; [by destruct v|by right].
      * split; [done|by left].
  - intros h l1 l2 Hne _. rewrite equals_Some_Some, strict_equals_objects.
    by rewrite bool_decide_eq_false_2.
  - by intros [] [].
Qed.

Lemma equals_strict_identity_witness :
  Option.equals (W := unit)
    (Option.Some (object 1%positive)) (Option.Some (object 2%positive))
    (mkState () 0)
  = (Normal false, mkState () 0)
  ∧ Option.equals (W := unit) Option.None Option.None (mkState () 0)
    = (Normal true, mkState () 0).
Proof.
  pose proof (equals_strict_identity (mkState () 0))
    as (_ & _ & _ & _ & Hobj & Hnone).
  split.
  - apply (Hobj (<[1%positive := {[ "x" := number 1 ]}]>
                   (<[2%positive := {[ "x" := number 1 ]}]> ∅))).
    + lia.
    + reflexivity.
  - apply Hnone; reflexivity.
Defined.

(** C10, as it is worded, fails: [equals] is not true on every two [Some]
    that wrap the same primitive value.  Both [Some(NaN)] wrap the same
    primitive, yet the answer is false, because [NaN === NaN] is false. *)
Lemma equals_fails_on_NaN :
  ¬ (Option.equals (W := unit)
       (Option.Some NaN) (Option.Some NaN) (mkState () 0)
     = (Normal true, mkState () 0)
     ↔ (is_primitive NaN = true ∧ NaN = NaN)
       ∨ (∃ l, NaN = object l ∧ NaN = object l))
  ∧ Option.equals (W := unit)
      (Option.Some NaN) (Option.Some NaN) (mkState () 0)
    = (Normal false, mkState () 0).
Proof.
  split; [|done]. intros [_ H]. by specialize (H (or_introl (conj eq_refl eq_refl))).
Qed.

(** ** The result container *)

(** C5: [Ok v] answers [isOk] with true and its [getErr] throws; [Err e]
    returns [e] from [getErr] and its [unwrap] throws.  The class throws
    plain [Error] objects: the failures that the specification calls
    InvalidStateError and EmptyValueError are the two [throw]s, each with
    its own fixed message. *)
Theorem Ok_Err_accessors {W} (v e : value) (s : state W) :
  Result.isOk (Result.Ok v) = true
  ∧ Result.getErr (Result.Ok v) s
    = (Throw (new_Error "Called getErr on an Ok value."), s)
  ∧ Result.getErr (Result.Err e) s = (Normal e, s)
  ∧ Result.unwrap (Result.Err e) s
    = (Throw (new_Error "Called unwrap on an error."), s).
Proof. done. Qed.

(** On [Ok] the function given to [map] is invoked exactly once. *)
Lemma map_Ok_invokes_once {W} (v : value) (fn : callback W value value)
    (s : state W) :
  invocations (Result.map (Result.Ok v) fn s).2 = S (invocations s).
Proof.
  unfold Result.map, Result.Ok, mbind, Js_bind, bind, invoke. simpl.
  by destruct (fn v (world s)) as [[u|err] w].
Qed.

(** C6: on [Err e], [map] returns [Err e] whatever the function is, and the
    state it leaves is the state it found: the world is untouched and no
    callback invocation is recorded.  [flatMap] does the same. *)
Theorem map_Err_passes_error {W} (e : value) (s : state W) :
  (∀ fn, Result.map (Result.Err e) fn s = (Normal (Result.Err e), s))
  ∧ (∀ fn, invocations (Result.map (Result.Err e) fn s).2 = invocations s)
  ∧ (∀ fn, Result.flatMap (Result.Err e) fn s = (Normal (Result.Err e), s))
  ∧ (∀ fn, invocations (Result.flatMap (Result.Err e) fn s).2 = invocations s).
Proof. done. Qed.

(** ** Arrays *)

Section ArrayFacts.
Context {T : Type}.
Implicit Types (items : list T) (i k : Z).

Lemma get_of_nat items (n : nat) : Array.get items (Z.of_nat n) = items !! n.
Proof.
  unfold Array.get. rewrite Nat2Z.id.
  by destruct (Z.leb_spec 0 (Z.of_nat n)); [|lia].
Qed.

Lemma get_in_range items i x :
  Array.get items i = Some x → 0 ≤ i < Array.length items.
Proof.
  unfold Array.get, Array.length. destruct (Z.leb_spec 0 i); [|done].
  intros Hx%lookup_lt_Some. lia.
Qed.

Lemma get_past_end items i : Array.length items ≤ i → Array.get items i = None.
Proof.
  unfold Array.get, Array.length. intros H. case_match; [|done].
  apply lookup_ge_None. lia.
Qed.

Lemma get_app_r items more (n : nat) :
  Array.get (items ++ more) (Z.of_nat (List.length items + n))
  = more !! n.
Proof. rewrite get_of_nat. rewrite lookup_app_r by lia. f_equal. lia. Qed.

(** [slice(k)] drops the first [k] elements and [slice(0, k)] keeps them,
    for [k] inside the array. *)
Lemma slice_from items k :
  0 ≤ k ≤ Array.length items →
  Array.slice items k None = drop (Z.to_nat k) items.
Proof.
  intros Hk. unfold Array.slice, Array.clamp.
  destruct (Z.ltb_spec k 0); [lia|]. rewrite Z.min_l by lia.
  apply take_ge. rewrite length_drop. unfold Array.length in *. lia.
Qed.

Lemma slice_upto items k :
  0 ≤ k ≤ Array.length items →
  Array.slice items 0 (Some k) = take (Z.to_nat k) items.
Proof.
  intros Hk. unfold Array.slice, Array.clamp. simpl.
  destruct (Z.ltb_spec k 0); [lia|].
  rewrite Z.min_l by lia. rewrite Z.min_l by (unfold Array.length; lia).
  by rewrite Z.sub_0_r.
Qed.

End ArrayFacts.

Section ArrayLoops.
Context {T : Type}.
Implicit Types (items : list T) (i k : Z).

(** Mapping with the index, from position [k] on. *)
Lemma map_from_imap {U} (fn : T → Z → U) items k :
  Array.map_from fn items k = imap (λ n x, fn x (k + Z.of_nat n)) items.
Proof.
  revert k. induction items as [|x items IH]; intros k; simpl; [done|].
  rewrite Z.add_0_r. f_equal. rewrite IH. apply imap_ext.
  intros n y _. simpl. f_equal. lia.
Qed.

(** A [forEach] whose body pushes one element per call builds the same
    array as [map] does. *)
Lemma forEach_from_push {U} (fn : T → Z → U) items k (acc : list U) :
  Array.forEach_from (λ value index result_, Array.push result_ (fn value index))
    items k acc
  = acc ++ Array.map_from fn items k.
Proof.
  revert k acc. induction items as [|x items IH]; intros k acc; simpl.
  - by rewrite app_nil_r.
  - rewrite IH. unfold Array.push. by rewrite <- app_assoc.
Qed.

Lemma forEach_push_map {U} (fn : T → Z → U) items :
  Array.forEach (λ value index result_, Array.push result_ (fn value index))
    items []
  = Array.map_indexed fn items.
Proof. unfold Array.forEach. by rewrite forEach_from_push. Qed.

(** Pairing every element with what [other[index]] reads. *)
Lemma map_indexed_pairs {U} items (other : list U) :
  Array.map_indexed (λ value index, (value, Array.get other index)) items
  = imap (λ n x, (x, other !! n)) items.
Proof.
  unfold Array.map_indexed. rewrite map_from_imap. apply imap_ext.
  intros n x _. by rewrite Z.add_0_l, get_of_nat.
Qed.

Lemma imap_pairs_zip {U} items (other : list U) :
  (List.length items ≤ List.length other)%nat →
  imap (λ n x, (x, other !! n)) items
  = zip_with (λ x y, (x, Some y)) items other.
Proof.
  revert other. induction items as [|x items IH]; intros [|y other] Hle;
    simpl in *; try done; try lia.
  f_equal. rewrite <- IH by lia. by apply imap_ext.
Qed.

End ArrayLoops.

(** ** The iterator: construction *)

Lemma range_loop_spec (i end_ : Z) (items : list Z) :
  Iterator.range_loop i end_ items = items ++ seqZ i (end_ - i).
Proof.
  funelim (Iterator.range_loop i end_ items).
  - rewrite H. unfold Array.push.
    rewrite <- app_assoc. f_equal. simpl.
    rewrite (seqZ_cons i) by lia. do 2 f_equal; lia.
  - rewrite seqZ_nil by lia. by rewrite app_nil_r.
Qed.

Lemma increment_safe (i : Z) :
  - 2 ^ 53 ≤ i < 2 ^ 53 → Number.increment i = i + 1.
Proof.
  intros Hi. unfold Number.increment, Number.round.
  destruct (Z.leb_spec (Z.abs (i + 1)) (2 ^ 53)); [done|lia].
Qed.

(** Between -2^53 and 2^53 the loop on doubles is the loop with exact
    counting. *)
Lemma range_loop_double_safe (fuel : nat) (i end_ : Z) (items : list Z) :
  - 2 ^ 53 ≤ i → end_ ≤ 2 ^ 53 →
  (Z.to_nat (end_ - i) < fuel)%nat →
  Iterator.range_loop_double fuel i end_ items
  = Some (items ++ seqZ i (end_ - i)).
Proof.
  revert i items. induction fuel as [|fuel IH]; intros i items Hi He Hfuel;
    [lia|].
  cbn [Iterator.range_loop_double]. destruct (Z.ltb_spec i end_).
  - rewrite increment_safe by lia. rewrite IH by lia. unfold Array.push.
    rewrite <- app_assoc. do 2 f_equal. simpl.
    rewrite (seqZ_cons i) by lia. do 2 f_equal; lia.
  - rewrite seqZ_nil by lia. by rewrite app_nil_r.
Qed.

Lemma range_double_safe (fuel : nat) (start end_ : Z) :
  Number.safe start → Number.safe end_ →
  (Z.to_nat (end_ - start) < fuel)%nat →
  Iterator.range_double fuel start (Some end_)
  = Some (Iterator.range start (Some end_)).
Proof.
  intros [Hs _] [_ He] Hfuel. unfold Iterator.range_double, Iterator.range.
  rewrite range_loop_double_safe by done. simpl. by rewrite range_loop_spec.
Qed.

(** At 2^53 the counter is stuck: [2^53 + 1] is no double and rounds back
    to 2^53. *)
Lemma range_loop_double_stuck (fuel : nat) (items : list Z) :
  Iterator.range_loop_double fuel (2 ^ 53) (2 ^ 53 + 2) items = None.
Proof.
  revert items. induction fuel as [|fuel IH]; intros items; [done|].
  cbn [Iterator.range_loop_double].
  replace (2 ^ 53 <? 2 ^ 53 + 2) with true by (by vm_compute).
  replace (Number.increment (2 ^ 53)) with (2 ^ 53) by (by vm_compute).
  apply IH.
Qed.

(** C8, as the code has it.  For integers [start] and [end] between -2^53 and
    2^53, [range(start, end)] returns, given fuel for its [end - start + 1]
    loop tests, and collects to the consecutive integers from [start] up to,
    not including, [end]: as many as [end - start], the one at position [k]
    being [start + k].  With a single argument the range runs from 0 to that
    argument; [range(0, 5)] and [range(5)] both collect to
    [0, 1, 2, 3, 4]. *)
Theorem range_collect :
  (∀ start end_ (fuel : nat),
      Number.safe start → Number.safe end_ →
      (Z.to_nat (end_ - start) < fuel)%nat →
      Iterator.result (Iterator.collect (U := Z) None)
        <$> Iterator.range_double fuel start (Some end_)
      = Some (seqZ start (end_ - start)))
  ∧ (∀ start end_ (fuel k : nat),
        Number.safe start → Number.safe end_ →
        (Z.to_nat (end_ - start) < fuel)%nat →
        Z.of_nat k < end_ - start →
        ∃ it, Iterator.range_double fuel start (Some end_) = Some it
              ∧ Iterator.result (Iterator.collect (U := Z) None) it !! k
                = Some (start + Z.of_nat k))
  ∧ (∀ start end_ (fuel : nat),
        Number.safe start → Number.safe end_ →
        (Z.to_nat (end_ - start) < fuel)%nat →
        ∃ it, Iterator.range_double fuel start (Some end_) = Some it
              ∧ List.length (Iterator.result (Iterator.collect (U := Z) None) it)
                = Z.to_nat (end_ - start))
  ∧ (∀ (fuel : nat) end_,
        Iterator.range_double fuel end_ None
        = Iterator.range_double fuel 0 (Some end_))
  ∧ (∀ fuel : nat,
        (5 < fuel)%nat →
        Iterator.result (Iterator.collect (U := Z) None)
          <$> Iterator.range_double fuel 0 (Some 5)
        = Some [0; 1; 2; 3; 4])
  ∧ (∀ fuel : nat,
        (5 < fuel)%nat →
        Iterator.result (Iterator.collect (U := Z) None)
          <$> Iterator.range_double fuel 5 None
        = Some [0; 1; 2; 3; 4]).
Proof.
  assert (Hall : ∀ start end_ (fuel : nat),
             Number.safe start → Number.safe end_ →
             (Z.to_nat (end_ - start) < fuel)%nat →
             Iterator.range_double fuel start (Some end_)
             = Some (Iterator.new_Iterator (seqZ start (end_ - start)))).
  { intros start end_ fuel [Hs _] [_ He] Hfuel. unfold Iterator.range_double.
    by rewrite range_loop_double_safe by done. }
  assert (Hfive : ∀ fuel : nat,
             (5 < fuel)%nat →
             Iterator.range_double fuel 0 (Some 5)
             = Some (Iterator.new_Iterator [0; 1; 2; 3; 4])).
  { intros fuel Hfuel. rewrite Hall; [done| | |simpl; lia];
      unfold Number.safe; lia. }
  split; [|split; [|split; [|split; [done|split]]]].
  - intros start end_ fuel Hs He Hfuel. by rewrite Hall.
  - intros start end_ fuel k Hs He Hfuel Hk. eexists. split; [by apply Hall|].
    unfold Iterator.result. simpl. by apply lookup_seqZ_lt.
  - intros start end_ fuel Hs He Hfuel. eexists. split; [by apply Hall|].
    unfold Iterator.result. simpl. apply length_seqZ.
  - intros fuel Hfuel. by rewrite Hfive.
  - intros fuel Hfuel.
    change (Iterator.range_double fuel 5 None)
      with (Iterator.range_double fuel 0 (Some 5)).
    by rewrite Hfive.
Qed.

Lemma range_collect_witness :
  Iterator.result (Iterator.collect (U := Z) None)
    <$> Iterator.range_double 5 2 (Some 6)
  = Some (seqZ 2 (6 - 2))
  ∧ Iterator.result (Iterator.collect (U := Z) None)
      <$> Iterator.range_double 6 5 None
    = Some [0; 1; 2; 3; 4].
Proof.
  destruct range_collect as (Hall & _ & _ & _ & _ & Hfive).
  split.
  - apply Hall; [unfold Number.safe; lia|unfold Number.safe; lia|simpl; lia].
  - apply Hfive. lia.
Defined.

(** C8, as it is worded, fails beyond 2^53.  Both 2^53 and 2^53 + 2 are
    doubles, but [range(2^53, 2^53 + 2)] never returns: after the first turn
    [i++] leaves [i] at 2^53, and [i < end] stays true. *)
Lemma range_never_returns_from_2_53 :
  Number.representable (2 ^ 53)
  ∧ Number.representable (2 ^ 53 + 2)
  ∧ ¬ (∃ (fuel : nat) it,
          Iterator.range_double fuel (2 ^ 53) (Some (2 ^ 53 + 2)) = Some it).
Proof.
  split; [by vm_compute|]. split; [by vm_compute|].
  intros (fuel & it & H). unfold Iterator.range_double in H.
  by rewrite range_loop_double_stuck in H.
Qed.

(** ** The iterator: scanning loops *)

Section Scanning.
Context {T : Type}.
Implicit Types (items pre post : list T) (test : option T → bool).

(** If the test holds at the [n] positions from [index] on and fails at
    the next one, the loop leaves [index] there, once the fuel allows for
    the [n + 1] tests it makes. *)
Lemma while_loop_stops test items (n : nat) :
  ∀ (fuel : nat) (index : Z),
    (∀ j : nat, (j < n)%nat →
                test (Array.get items (index + Z.of_nat j)) = true) →
    test (Array.get items (index + Z.of_nat n)) = false →
    (n < fuel)%nat →
    Iterator.while_loop fuel test items index = Some (index + Z.of_nat n).
Proof.
  induction n as [|n IH]; intros fuel index Hpass Hfail Hfuel;
    (destruct fuel as [|fuel]; [lia|]); simpl.
  - rewrite Z.add_0_r in *. by rewrite Hfail.
  - specialize (Hpass 0%nat ltac:(lia)) as H0. rewrite Z.add_0_r in H0.
    rewrite H0, (IH fuel (index + 1)).
    + f_equal. lia.
    + intros j Hj. specialize (Hpass (S j) ltac:(lia)).
      by replace (index + 1 + Z.of_nat j) with (index + Z.of_nat (S j)) by lia.
    + by replace (index + 1 + Z.of_nat n) with (index + Z.of_nat (S n)) by lia.
    + lia.
Qed.

(** More fuel does not change where the loop stops. *)
Lemma while_loop_more_fuel test items (fuel fuel' : nat) index r :
  Iterator.while_loop fuel test items index = Some r →
  (fuel ≤ fuel')%nat →
  Iterator.while_loop fuel' test items index = Some r.
Proof.
  revert fuel' index. induction fuel as [|fuel IH]; intros fuel' index; [done|].
  destruct fuel' as [|fuel']; [lia|]. simpl.
  destruct (test (Array.get items index)); [|done].
  intros H Hle. apply IH; [done|lia].
Qed.

(** Where it stops, the test has failed, and it held at every position
    before. *)
Lemma while_loop_result test items (fuel : nat) index r :
  Iterator.while_loop fuel test items index = Some r →
  index ≤ r
  ∧ test (Array.get items r) = false
  ∧ ∀ j, index ≤ j < r → test (Array.get items j) = true.
Proof.
  revert index. induction fuel as [|fuel IH]; intros index; [done|]. simpl.
  destruct (test (Array.get items index)) eqn:Htest.
  - intros (Hle & Hr & Hbefore)%IH. repeat split; [lia|done|].
    intros j Hj. destruct (decide (j = index)) as [->|]; [done|].
    apply Hbefore. lia.
  - intros [= <-]. repeat split; [lia|done|]. intros j Hj. lia.
Qed.

(** A test that holds of every element and of [undefined] keeps the loop
    running for ever: no amount of fuel lets it stop. *)
Lemma while_loop_diverges test items (fuel : nat) index :
  (∀ x, test x = true) →
  Iterator.while_loop fuel test items index = None.
Proof.
  intros Hall. revert index. induction fuel as [|fuel IH]; intros index; [done|].
  simpl. by rewrite Hall.
Qed.

Lemma while_loop_first_failure test pre x post (fuel : nat) :
  Forall (λ y, test (Some y) = true) pre →
  test (Some x) = false →
  (List.length pre < fuel)%nat →
  Iterator.while_loop fuel test (pre ++ x :: post) 0
  = Some (Z.of_nat (List.length pre)).
Proof.
  intros Hpre Hx Hfuel.
  rewrite (while_loop_stops test _ (List.length pre) fuel 0); [done| | |done].
  - intros j Hj. rewrite Z.add_0_l, get_of_nat.
    rewrite lookup_app_l by done.
    destruct (lookup_lt_is_Some_2 pre j Hj) as [y Hy]. rewrite Hy.
    by apply (Forall_lookup_1 _ _ _ _ Hpre Hy).
  - rewrite Z.add_0_l, get_of_nat, list_lookup_middle; done.
Qed.

End Scanning.

(** C7: [skipWhile] tests the elements from the front and stops at the
    first one that fails the predicate: when the elements of [pre] all
    satisfy it and [x] does not, the call on [pre ++ x :: post] returns a new
    iterator over [x :: post], given fuel for the [length pre + 1] tests; when
    the very first element fails, nothing is skipped and the new iterator
    holds the whole array; whenever a call returns, it returns the slice
    from the first position at which the predicate fails; and
    [skipWhile(x => x < 3)] on [1, 2, 3, 4] collects to [3, 4]. *)
Theorem skipWhile_first_failure {T} (predicate : option T → bool) :
  (∀ (pre : list T) (x : T) (post : list T) (cursor : Z) (fuel : nat),
      Forall (λ y, predicate (Some y) = true) pre →
      predicate (Some x) = false →
      (List.length pre < fuel)%nat →
      Iterator.result (Iterator.skipWhile fuel predicate)
        (Iterator.mkIterator (pre ++ x :: post) cursor)
      = Some (Iterator.new_Iterator (x :: post)))
  ∧ (∀ (x : T) (post : list T) (cursor : Z) (fuel : nat),
        predicate (Some x) = false →
        (0 < fuel)%nat →
        Iterator.result (Iterator.skipWhile fuel predicate)
          (Iterator.mkIterator (x :: post) cursor)
        = Some (Iterator.new_Iterator (x :: post)))
  ∧ (∀ (this : Iterator.Iterator T) (fuel : nat) (it : Iterator.Iterator T),
        Iterator.result (Iterator.skipWhile fuel predicate) this = Some it →
        ∃ k, predicate (Array.get (Iterator.items this) k) = false
             ∧ (∀ j, 0 ≤ j < k →
                     predicate (Array.get (Iterator.items this) j) = true)
             ∧ it = Iterator.new_Iterator
                      (Array.slice (Iterator.items this) k None))
  ∧ (∀ fuel : nat,
        (3 ≤ fuel)%nat →
        Iterator.result (Iterator.collect (U := Z) None) <$>
          Iterator.result (Iterator.skipWhile fuel less_than_3)
            (Iterator.from [1; 2; 3; 4])
        = Some [3; 4]).
Proof.
  assert (Hgen : ∀ {A} (p : option A → bool) pre x post cursor (fuel : nat),
             Forall (λ y, p (Some y) = true) pre →
             p (Some x) = false →
             (List.length pre < fuel)%nat →
             Iterator.result (Iterator.skipWhile fuel p)
               (Iterator.mkIterator (pre ++ x :: post) cursor)
             = Some (Iterator.new_Iterator (x :: post))).
  { intros A p pre x post cursor fuel Hpre Hx Hfuel.
    unfold Iterator.result, Iterator.skipWhile. simpl.
    rewrite while_loop_first_failure by done. simpl. do 2 f_equal.
    rewrite slice_from.
    - rewrite Nat2Z.id. by rewrite drop_app_length.
    - unfold Array.length. rewrite length_app. simpl. lia. }
  split; [by apply Hgen|]. split; [|split].
  - intros x post cursor fuel Hx Hfuel. by apply (Hgen _ predicate []).
  - intros [l cursor] fuel it. unfold Iterator.result, Iterator.skipWhile. simpl.
    destruct (Iterator.while_loop fuel predicate l 0) as [k|] eqn:Hloop;
      simpl; [|done].
    intros [= <-]. apply while_loop_result in Hloop as (_ & Hk & Hbefore).
    by exists k.
  - intros fuel Hfuel.
    change (Iterator.from [1; 2; 3; 4])
      with (Iterator.mkIterator ([1; 2] ++ 3 :: [4]) 0).
    rewrite (Hgen _ less_than_3); [done| |done|simpl; lia].
    by repeat constructor.
Qed.

Lemma skipWhile_first_failure_witness :
  Iterator.result (Iterator.skipWhile 3 less_than_3)
    (Iterator.mkIterator ([1; 2] ++ 3 :: [4]) 0)
  = Some (Iterator.new_Iterator (3 :: [4]))
  ∧ Iterator.result (Iterator.skipWhile 1 less_than_3)
      (Iterator.mkIterator (5 :: [1; 2]) 0)
    = Some (Iterator.new_Iterator (5 :: [1; 2]))
  ∧ Iterator.result (Iterator.collect (U := Z) None) <$>
      Iterator.result (Iterator.skipWhile 3 less_than_3)
        (Iterator.from [1; 2; 3; 4])
    = Some [3; 4].
Proof.
  destruct (skipWhile_first_failure less_than_3) as (Hgen & Hzero & _ & Hex).
  split; [|split].
  - apply Hgen.
    + repeat constructor.
    + reflexivity.
    + simpl. lia.
  - apply Hzero.
    + reflexivity.
    + lia.
  - apply Hex. lia.
Defined.

(** ** The iterator: pairing *)

(** Unfolds a method down to the array operation it performs. *)
Ltac method_body :=
  cbv [Iterator.result Iterator.receiver
       Iterator.zip Iterator.chainWith Iterator.collectWith Iterator.collectInto
       mbind mret Iterator.method_bind Iterator.method_ret
       Iterator.this_items Iterator.this_index Iterator.set_index
       Iterator.new_Iterator fst snd Iterator.items].

Lemma zip_items {T U} (this : Iterator.Iterator T) (other : Iterator.Iterator U) :
  Iterator.items (Iterator.result (Iterator.zip other) this)
  = imap (λ n x, (x, Iterator.items other !! n)) (Iterator.items this).
Proof. destruct this, other. method_body. apply map_indexed_pairs. Qed.

Lemma chainWith_zip {T U} (this : Iterator.Iterator T) (other : Iterator.Iterator U) :
  Iterator.chainWith other this = Iterator.zip other this.
Proof.
  destruct this as [l i], other as [l' i']. method_body.
  by rewrite (forEach_push_map (λ value index, (value, Array.get l' index))).
Qed.

(** C3, as the code has it: [zip] makes one pair for every element of the
    receiver, whatever the length of the other iterator.  The pair at
    position [n] holds the receiver's element and what [other.items[n]]
    reads, which is [undefined] from the end of the other iterator on.  So
    the pairs are as many as the shorter of the two lengths, none of them
    with [undefined], when the receiver is not the longer one.  [zip] is a
    total function with no failing case; [chainWith] builds the same
    iterator, [collectWith] the same array, and [collectInto] the array of
    the function applied to each pair; zipping [1, 2] with ['a', 'b']
    collects to [[1, 'a'], [2, 'b']]. *)
Theorem zip_pairs {T U} (this : Iterator.Iterator T) (other : Iterator.Iterator U) :
  let pairs := Iterator.items (Iterator.result (Iterator.zip other) this) in
  pairs = imap (λ n x, (x, Iterator.items other !! n)) (Iterator.items this)
  ∧ List.length pairs = List.length (Iterator.items this)
  ∧ ((List.length (Iterator.items this) ≤ List.length (Iterator.items other))%nat →
     pairs = zip_with (λ x y, (x, Some y))
               (Iterator.items this) (Iterator.items other)
     ∧ List.length pairs
       = Nat.min (List.length (Iterator.items this))
                 (List.length (Iterator.items other)))
  ∧ (List.length pairs
     = Nat.min (List.length (Iterator.items this))
               (List.length (Iterator.items other))
     ↔ (List.length (Iterator.items this)
        ≤ List.length (Iterator.items other))%nat)
  ∧ Iterator.result (Iterator.chainWith other) this
    = Iterator.result (Iterator.zip other) this
  ∧ Iterator.result (Iterator.collectWith other) this = pairs
  ∧ (∀ V (fn : T → option U → V),
        Iterator.result (Iterator.collectInto other fn) this
        = (λ p, fn p.1 p.2) <$> pairs)
  ∧ Iterator.result (Iterator.collect (U := unit) None)
      (Iterator.result (Iterator.zip (Iterator.from ["a"; "b"]%string))
         (Iterator.from [1; 2]))
    = [(1, Some "a"%string); (2, Some "b"%string)].
Proof.
  intros pairs. subst pairs. rewrite zip_items.
  split; [done|]. split; [by rewrite length_imap|].
  split; [|split; [|split; [|split; [|split]]]].
  - intros Hle. rewrite imap_pairs_zip by done. split; [done|].
    rewrite length_zip_with. lia.
  - rewrite length_imap. lia.
  - unfold Iterator.result. by rewrite chainWith_zip.
  - destruct this as [l i], other as [l' i']. method_body.
    rewrite (forEach_push_map (λ value index, (value, Array.get l' index))).
    apply map_indexed_pairs.
  - intros V fn. destruct this as [l i], other as [l' i']. method_body.
    rewrite (forEach_push_map (λ value index, fn value (Array.get l' index))).
    unfold Array.map_indexed. rewrite map_from_imap, fmap_imap.
    apply imap_ext. intros n x _. simpl. by rewrite Z.add_0_l, get_of_nat.
  - done.
Qed.

Lemma zip_pairs_witness :
  Iterator.items
    (Iterator.result (Iterator.zip (Iterator.from ["a"; "b"; "c"]%string))
       (Iterator.from [1; 2]))
  = zip_with (λ x y, (x, Some y)) [1; 2] ["a"; "b"; "c"]%string
  ∧ List.length
      (Iterator.items
         (Iterator.result (Iterator.zip (Iterator.from ["a"; "b"; "c"]%string))
            (Iterator.from [1; 2])))
    = Nat.min 2 3.
Proof.
  destruct (zip_pairs (Iterator.from [1; 2])
              (Iterator.from ["a"; "b"; "c"]%string)) as (_ & _ & Hshort & _).
  apply Hshort. simpl. lia.
Defined.

(** C3, as the specification words it, fails: zipping a receiver of three
    elements with an iterator of one makes three pairs, not one, the last
    two holding [undefined]. *)
Lemma zip_longer_receiver :
  Iterator.items
    (Iterator.result (Iterator.zip (Iterator.from ["a"%string]))
       (Iterator.from [1; 2; 3]))
  = [(1, Some "a"%string); (2, None); (3, None)]
  ∧ List.length
      (Iterator.items
         (Iterator.result (Iterator.zip (Iterator.from ["a"%string]))
            (Iterator.from [1; 2; 3])))
    ≠ Nat.min (List.length [1; 2; 3]) (List.length ["a"%string]).
Proof. split; [reflexivity|]. simpl. lia. Qed.

(** ** The iterator: the cursor *)

(** C9: what [map], [filter], [skip], [take], [collect], [reduce], [count],
    [any] and [all] return does not depend on the cursor: on an iterator
    whose cursor is anywhere they return what they return on a fresh
    iterator over the same array, whatever function they are given, also
    one that uses the index and the array it is called with. *)
Theorem results_ignore_cursor {T} (this : Iterator.Iterator T) :
  let fresh := Iterator.from (Iterator.items this) in
  (∀ U (fn : T → Z → list T → U),
      Iterator.result (Iterator.map fn) this
      = Iterator.result (Iterator.map fn) fresh)
  ∧ (∀ predicate,
        Iterator.result (Iterator.filter predicate) this
        = Iterator.result (Iterator.filter predicate) fresh)
  ∧ (∀ n, Iterator.result (Iterator.skip n) this
          = Iterator.result (Iterator.skip n) fresh)
  ∧ (∀ n, Iterator.result (Iterator.take n) this
          = Iterator.result (Iterator.take n) fresh)
  ∧ (∀ U (fn : option (T → Z → list T → U)),
        Iterator.result (Iterator.collect fn) this
        = Iterator.result (Iterator.collect fn) fresh)
  ∧ (∀ U (fn : U → T → Z → list T → U) initialValue,
        Iterator.result (Iterator.reduce fn initialValue) this
        = Iterator.result (Iterator.reduce fn initialValue) fresh)
  ∧ (∀ predicate,
        Iterator.result (Iterator.count predicate) this
        = Iterator.result (Iterator.count predicate) fresh)
  ∧ (∀ predicate,
        Iterator.result (Iterator.any predicate) this
        = Iterator.result (Iterator.any predicate) fresh)
  ∧ (∀ predicate,
        Iterator.result (Iterator.all predicate) this
        = Iterator.result (Iterator.all predicate) fresh).
Proof. destruct this as [l cursor]. repeat split. Qed.

Section Histories.
Context {T : Type}.
Implicit Types (this : Iterator.Iterator T) (c : Iterator.call T)
  (calls : list (Iterator.call T)).

(** No call changes the backing array of its receiver. *)
Lemma perform_items c this :
  Iterator.items (Iterator.perform c this) = Iterator.items this.
Proof. by destruct c. Qed.

(** Only [next] and [reset] move the cursor. *)
Lemma perform_index c this :
  Iterator.index (Iterator.perform c this)
  = match c with
    | Iterator.call_next => Iterator.index this + 1
    | Iterator.call_reset => 0
    | _ => Iterator.index this
    end.
Proof. by destruct c. Qed.

Lemma run_cons c calls this :
  Iterator.run (c :: calls) this
  = Iterator.run calls (Iterator.perform c this).
Proof. done. Qed.

Lemma run_items calls this :
  Iterator.items (Iterator.run calls this) = Iterator.items this.
Proof.
  revert this. induction calls as [|c calls IH]; intros this; [done|].
  by rewrite run_cons, IH, perform_items.
Qed.

Lemma run_index_nonneg calls this :
  0 ≤ Iterator.index this → 0 ≤ Iterator.index (Iterator.run calls this).
Proof.
  revert this. induction calls as [|c calls IH]; intros this Hthis; [done|].
  rewrite run_cons. apply IH. rewrite perform_index. destruct c; lia.
Qed.

Lemma hasNext_true this :
  Iterator.result Iterator.hasNext this = true
  ↔ Iterator.index this < Array.length (Iterator.items this).
Proof. destruct this as [l i]. cbn. apply Z.ltb_lt. Qed.

Lemma run_guarded_in_range calls this :
  Iterator.cursor_in_range this →
  Iterator.guarded calls this = true →
  Iterator.cursor_in_range (Iterator.run calls this).
Proof.
  revert this. induction calls as [|c calls IH]; intros this Hthis Hg; [done|].
  rewrite run_cons. simpl in Hg. apply andb_prop in Hg as [Hc Hg].
  apply IH; [|done]. unfold Iterator.cursor_in_range in *.
  rewrite perform_items, perform_index.
  destruct c; try lia. apply hasNext_true in Hc. lia.
Qed.

End Histories.

(** C2, as the code has it.  After any history of calls on an iterator the
    cursor is at least 0, the backing array is the one the iterator started
    with, and the cursor is at most the length of the array provided [next]
    was called only where [hasNext] answered true.  A freshly constructed
    iterator has its cursor at 0.  Each of [map], [filter], [skip], [take],
    [enumerate], [zip], [chain] and [chainWith] returns an iterator whose
    cursor is 0 and leaves its receiver as it found it; so do [skipWhile]
    and [takeWhile] whenever their loop ends. *)
Theorem cursor_invariant {T} (this : Iterator.Iterator T) :
  (∀ calls, 0 ≤ Iterator.index this →
            0 ≤ Iterator.index (Iterator.run calls this))
  ∧ (∀ calls, Iterator.cursor_in_range this →
              Iterator.guarded calls this = true →
              Iterator.cursor_in_range (Iterator.run calls this))
  ∧ (∀ calls, Iterator.items (Iterator.run calls this) = Iterator.items this)
  ∧ (∀ l : list T, Iterator.cursor_in_range (Iterator.from l)
                   ∧ Iterator.index (Iterator.from l) = 0)
  ∧ (∀ U (fn : T → Z → list T → U),
        Iterator.index (Iterator.result (Iterator.map fn) this) = 0
        ∧ Iterator.receiver (Iterator.map fn) this = this)
  ∧ (∀ predicate,
        Iterator.index (Iterator.result (Iterator.filter predicate) this) = 0
        ∧ Iterator.receiver (Iterator.filter predicate) this = this)
  ∧ (∀ n, Iterator.index (Iterator.result (Iterator.skip n) this) = 0
          ∧ Iterator.receiver (Iterator.skip n) this = this)
  ∧ (∀ n, Iterator.index (Iterator.result (Iterator.take n) this) = 0
          ∧ Iterator.receiver (Iterator.take n) this = this)
  ∧ (Iterator.index (Iterator.result Iterator.enumerate this) = 0
     ∧ Iterator.receiver Iterator.enumerate this = this)
  ∧ (∀ U (other : Iterator.Iterator U),
        Iterator.index (Iterator.result (Iterator.zip other) this) = 0
        ∧ Iterator.receiver (Iterator.zip other) this = this
        ∧ Iterator.index (Iterator.result (Iterator.chainWith other) this) = 0
        ∧ Iterator.receiver (Iterator.chainWith other) this = this)
  ∧ (∀ U (fn : T → Iterator.Iterator U),
        Iterator.index (Iterator.result (Iterator.chain fn) this) = 0
        ∧ Iterator.receiver (Iterator.chain fn) this = this)
  ∧ (∀ fuel predicate,
        Iterator.receiver (Iterator.skipWhile fuel predicate) this = this
        ∧ Iterator.receiver (Iterator.takeWhile fuel predicate) this = this
        ∧ (∀ it, Iterator.result (Iterator.skipWhile fuel predicate) this
                 = Some it → Iterator.index it = 0)
        ∧ (∀ it, Iterator.result (Iterator.takeWhile fuel predicate) this
                 = Some it → Iterator.index it = 0)).
Proof.
  split; [intros; by apply run_index_nonneg|].
  split; [intros; by apply run_guarded_in_range|].
  split; [intros; by apply run_items|].
  split.
  { intros l. unfold Iterator.cursor_in_range, Array.length. simpl. lia. }
  destruct this as [l i]. repeat split.
  all: intros it Hit.
  all: unfold Iterator.result, Iterator.skipWhile, Iterator.takeWhile in Hit.
  all: simpl in Hit.
  all: match type of Hit with
       | context [Iterator.while_loop ?f ?p ?a ?k] =>
           destruct (Iterator.while_loop f p a k)
       end; simpl in Hit; [by injection Hit as <-|discriminate].
Qed.

Lemma cursor_invariant_witness :
  Iterator.cursor_in_range
    (Iterator.run
       [Iterator.call_next; Iterator.call_hasNext; Iterator.call_next;
        Iterator.call_map (λ x _ _, x + 1); Iterator.call_reset;
        Iterator.call_next]
       (Iterator.from [1; 2])).
Proof.
  destruct (cursor_invariant (Iterator.from [1; 2])) as (_ & Hguarded & _).
  apply Hguarded.
  - unfold Iterator.cursor_in_range, Array.length. simpl. lia.
  - reflexivity.
Defined.

(** C2, as the specification words it, fails: [next] does not check the
    cursor against the length, so one call on an empty iterator leaves the
    cursor at 1, past the only position the invariant allows, and three
    calls on an iterator over two elements leave it at 3. *)
Lemma next_moves_cursor_past_length :
  ¬ Iterator.cursor_in_range
      (Iterator.run [Iterator.call_next] (Iterator.from ([] : list Z)))
  ∧ Iterator.index
      (Iterator.run [Iterator.call_next; Iterator.call_next; Iterator.call_next]
         (Iterator.from [1; 2]))
    = 3.
Proof.
  split; [|reflexivity].
  unfold Iterator.cursor_in_range, Array.length. simpl. lia.
Qed.

(** * Further properties of the code *)

(** Unfolds the monad of the two containers down to pairs. *)
Ltac js_unfold :=
  cbv [Client.outcome Client.pure Client.compose Client.arrow
       Option.map Option.flatMap Option.andThen Option.filter Option.unwrap
       Option.unwrapOrElse Option.match_ Option.expect Option.equals
       Option.Some Option.None Option.isSome Option.isNone
       Result.map Result.flatMap Result.unwrap Result.getErr Result.expect
       Result.unwrapOrElse Result.Ok Result.Err Result.isOk Result.isErr
       mbind mret Js_bind Js_ret bind ret throw invoke fst snd].

(** ** The optional container, beyond the claims *)

Lemma strict_equals_sym (a b : value) : strict_equals a b = strict_equals b a.
Proof.
  destruct a, b; cbn [strict_equals]; try done;
    first [ apply Z.eqb_sym | apply String.eqb_sym | apply Pos.eqb_sym
          | by repeat match goal with b : bool |- _ => destruct b end ].
Qed.

Lemma strict_equals_trans (a b c : value) :
  strict_equals a b = true → strict_equals b c = true →
  strict_equals a c = true.
Proof.
  rewrite !strict_equals_spec.
  intros [Ha [<-|[Hza Hzb]]] [Hb [<-|[Hzb' Hzc]]]; split; auto.
Qed.

(** [equals] never throws, although it calls [unwrap]: that call is guarded
    by [isSome].  It leaves the state alone, gives the same answer with
    receiver and argument exchanged, and is transitive. *)
Theorem Option_equals_symmetric_transitive {W} (s : state W) :
  (∀ a b, ∃ r : bool, Option.equals a b s = (Normal r, s)
                      ∧ Option.equals b a s = (Normal r, s))
  ∧ (∀ a b c, Option.equals a b s = (Normal true, s) →
              Option.equals b c s = (Normal true, s) →
              Option.equals a c s = (Normal true, s)).
Proof.
  split.
  - intros [v|] [w|]; js_unfold; eauto.
    exists (strict_equals v w). by rewrite (strict_equals_sym w v).
  - intros [u|] [v|] [w|]; js_unfold; try done.
    intros [= Huv] [= Hvw]. by rewrite (strict_equals_trans u v w).
Qed.

Lemma Option_equals_symmetric_transitive_witness :
  Option.equals (W := unit)
    (Option.Some (str "a")) (Option.Some (str "a")) (mkState () 0)
  = (Normal true, mkState () 0).
Proof.
  destruct (Option_equals_symmetric_transitive (mkState () 0)) as [_ Htrans].
  apply (Htrans _ (Option.Some (str "a"))); reflexivity.
Defined.

(** [get] answers [null] for [None] and also for a [Some] that wraps
    [null]: its result tells the two apart in no other case. *)
Theorem Option_get_null (o : Option.Option) :
  Option.get o = null ↔ o = Option.None ∨ o = Option.Some null.
Proof.
  destruct o as [v|]; simpl; split; eauto.
  - intros ->. by right.
  - by intros [|[= ->]].
Qed.

(** [unwrap] returns exactly on the options that answer [isSome] with true,
    and throws exactly on those that answer [isNone] with true; the two
    predicates are complementary; and when [unwrap] returns, [expect],
    [unwrapOrDefault] and [get] return the same value. *)
Theorem Option_unwrap_iff_isSome {W} (o : Option.Option) (s : state W) :
  ((∃ v, Option.unwrap o s = (Normal v, s)) ↔ Option.isSome o = true)
  ∧ ((∃ e, Option.unwrap o s = (Throw e, s)) ↔ Option.isNone o = true)
  ∧ Option.isNone o = negb (Option.isSome o)
  ∧ (∀ v message defaultValue,
        Option.unwrap o s = (Normal v, s) →
        Option.expect o message s = (Normal v, s)
        ∧ Option.unwrapOrDefault o defaultValue = v
        ∧ Option.get o = v)
  ∧ (∀ defaultValue,
        Option.isNone o = true → Option.unwrapOrDefault o defaultValue = defaultValue).
Proof.
  destruct o as [v|]; js_unfold; simpl.
  - split; [split; [done|by exists v]|].
    split; [split; [by intros [e [=]]|done]|].
    split; [done|]. split; [by intros v' _ _ [= <-]|done].
  - split; [split; [by intros [v [=]]|done]|].
    split; [split; [done|by eexists]|].
    split; [done|]. split; [by intros v _ _ [=]|done].
Qed.

Lemma Option_unwrap_iff_isSome_witness :
  Option.expect (W := unit) (Option.Some (number 7)) "no value" (mkState () 0)
  = (Normal (number 7), mkState () 0)
  ∧ Option.unwrapOrDefault Option.None (number 1) = number 1.
Proof.
  split.
  - destruct (Option_unwrap_iff_isSome (Option.Some (number 7)) (mkState () 0))
      as (_ & _ & _ & Hsame & _).
    apply (Hsame (number 7) "no value"%string null). reflexivity.
  - destruct (Option_unwrap_iff_isSome Option.None (mkState () 0))
      as (_ & _ & _ & _ & Hdefault).
    apply Hdefault. reflexivity.
Defined.

(** How often each method of an option calls the functions it is given:
    [map], [flatMap], [andThen] and [filter] call theirs once on [Some] and
    never on [None]; [unwrapOrElse] calls its function once on [None] and
    never on [Some]; [match] calls exactly one of its two functions, once.
    Where no function is called, the state is left as it was. *)
Theorem Option_callback_invocations {W} (o : Option.Option) (s : state W) :
  let once_if (b : bool) := (invocations s + (if b then 1 else 0))%nat in
  (∀ fn, invocations (Option.map o fn s).2 = once_if (Option.isSome o))
  ∧ (∀ fn, invocations (Option.flatMap o fn s).2 = once_if (Option.isSome o))
  ∧ (∀ fn, invocations (Option.andThen o fn s).2 = once_if (Option.isSome o))
  ∧ (∀ fn, invocations (Option.filter o fn s).2 = once_if (Option.isSome o))
  ∧ (∀ fn, invocations (Option.unwrapOrElse o fn s).2
           = once_if (Option.isNone o))
  ∧ (∀ U (onSome : callback W value U) onNone,
        invocations (Option.match_ o onSome onNone s).2 = S (invocations s))
  ∧ (Option.isNone o = true →
     (∀ fn, Option.map o fn s = (Normal Option.None, s))
     ∧ (∀ fn, Option.flatMap o fn s = (Normal Option.None, s))
     ∧ (∀ fn, Option.andThen o fn s = (Normal Option.None, s))
     ∧ (∀ fn, Option.filter o fn s = (Normal Option.None, s)))
  ∧ (∀ v fn, o = Option.Some v →
             Option.unwrapOrElse o fn s = (Normal v, s)).
Proof.
  intros once_if. subst once_if.
  destruct o as [v|]; js_unfold; simpl; repeat split; intros;
    repeat case_match; simplify_eq/=; try done; lia.
Qed.

Lemma Option_callback_invocations_witness :
  Option.map (W := unit) Option.None (Client.pure (λ v, v)) (mkState () 0)
  = (Normal Option.None, mkState () 0)
  ∧ Option.unwrapOrElse (W := unit)
      (Option.Some (number 3)) (Client.pure (λ _, number 0)) (mkState () 0)
    = (Normal (number 3), mkState () 0).
Proof.
  split.
  - destruct (Option_callback_invocations (W := unit) Option.None (mkState () 0))
      as (_ & _ & _ & _ & _ & _ & HNone & _).
    apply HNone. reflexivity.
  - destruct (Option_callback_invocations (W := unit)
                (Option.Some (number 3)) (mkState () 0))
      as (_ & _ & _ & _ & _ & _ & _ & HSome).
    by apply HSome.
Defined.

(** [map] is a functor up to what a caller observes (completion and world):
    mapping the identity returns the option itself, and mapping [f] and then
    [g] is mapping [v => g(f(v))], also when [f] or [g] throws or changes the
    world. *)
Theorem Option_map_functor {W} (o : Option.Option) (s : state W) :
  Client.outcome (Option.map o (Client.pure (λ v, v))) s = (Normal o, world s)
  ∧ (∀ f g : callback W value value,
        Client.outcome (o' ← Option.map o f; Option.map o' g) s
        = Client.outcome (Option.map o (Client.compose f g)) s).
Proof.
  destruct s as [w0 n0], o as [v|]; js_unfold; simpl; split; try done.
  intros f g. destruct (f v w0) as [[u|e] w]; simpl; [|done].
  by destruct (g u w) as [[u'|e] w'].
Qed.

(** [flatMap] with the laws of a monad, up to what a caller observes:
    [Some(v).flatMap(fn)] is the call [fn(v)]; [o.flatMap(Option.Some)] is
    [o]; chaining two [flatMap]s is one [flatMap] with the chained function;
    and [andThen] is [flatMap].  In particular
    [Some(x).flatMap(Option.Some).unwrap()] returns [x]. *)
Theorem Option_flatMap_monad {W} (s : state W) :
  (∀ v fn, Option.flatMap (Option.Some v) fn s = invoke fn v s)
  ∧ (∀ o, Client.outcome (Option.flatMap o (Client.pure Option.Some)) s
          = (Normal o, world s))
  ∧ (∀ o (f g : callback W value Option.Option),
        Client.outcome (o' ← Option.flatMap o f; Option.flatMap o' g) s
        = Client.outcome
            (Option.flatMap o
               (Client.arrow (λ v, o' ← invoke f v; Option.flatMap o' g))) s)
  ∧ (∀ o fn, Option.andThen o fn s = Option.flatMap o fn s)
  ∧ (∀ x, Client.outcome
            (o ← Option.flatMap (Option.Some x) (Client.pure Option.Some);
             Option.unwrap o) s
          = (Normal x, world s)).
Proof.
  destruct s as [w0 n0].
  split; [done|]. split; [by intros [v|]|]. split; [|split; [by intros [v|]|done]].
  intros [v|] f g; js_unfold; simpl; [|done].
  destruct (f v w0) as [[[u|]|e] w]; simpl; try done.
  by destruct (g u w) as [[o'|e] w'].
Qed.

(** [filter] returns its receiver or [None], never another option; and with
    predicates that have no effect, filtering by [p] and then by [q] is
    filtering by [v => p(v) && q(v)], so filtering twice by the same
    predicate is filtering once. *)
Theorem Option_filter_compose {W} (o : Option.Option) (s : state W) :
  (∀ predicate r s', Option.filter o predicate s = (Normal r, s') →
                     r = o ∨ r = Option.None)
  ∧ (∀ p q : value → bool,
        Client.outcome
          (o' ← Option.filter o (Client.pure p);
           Option.filter o' (Client.pure q)) s
        = Client.outcome
            (Option.filter o (Client.pure (λ v, p v && q v))) s)
  ∧ (∀ p : value → bool,
        Client.outcome
          (o' ← Option.filter o (Client.pure p);
           Option.filter o' (Client.pure p)) s
        = Client.outcome (Option.filter o (Client.pure p)) s).
Proof.
  destruct s as [w0 n0]. split; [|split].
  - intros predicate r s'. destruct o as [v|]; js_unfold; simpl.
    + destruct (predicate v w0) as [[[|]|e] w]; intros [= <- <-]; eauto.
    + intros [= <- <-]. eauto.
  - intros p q. destruct o as [v|]; js_unfold; simpl; [|done].
    by destruct (p v), (q v).
  - intros p. destruct o as [v|]; js_unfold; simpl; [|done].
    by destruct (p v) eqn:Hp; simpl; rewrite ?Hp.
Qed.

Lemma Option_filter_compose_witness :
  Option.Some (number 2) = Option.Some (number 2)
  ∨ Option.Some (number 2) = Option.None.
Proof.
  destruct (Option_filter_compose (W := unit)
              (Option.Some (number 2)) (mkState () 0)) as [Hkeep _].
  apply (Hkeep (Client.pure (λ _, true)) _ (mkState () 1)). reflexivity.
Defined.

(** [toJSON] loses nothing: two options with the same serialisation are the
    same option. *)
Theorem Option_toJSON_injective (a b : Option.Option) :
  Option.toJSON a = Option.toJSON b → a = b.
Proof.
  intros H.
  pose proof (f_equal (λ m : gmap string value, m !! "value") H) as Hvalue.
  destruct a as [v|], b as [w|]; simpl in Hvalue.
  - rewrite !lookup_insert_ne, !lookup_singleton_eq in Hvalue by done.
    by injection Hvalue as ->.
  - rewrite lookup_insert_ne, lookup_singleton_eq, lookup_singleton_ne
      in Hvalue by done. done.
  - rewrite lookup_insert_ne, lookup_singleton_eq, lookup_singleton_ne
      in Hvalue by done. done.
  - done.
Qed.

Lemma Option_toJSON_injective_witness :
  Option.Some (str "x") = Option.Some (str "x").
Proof. apply Option_toJSON_injective. reflexivity. Defined.

(** ** The result container, beyond the claims *)

(** Of [unwrap] and [getErr] exactly one returns and the other throws:
    [unwrap] returns on the results that answer [isOk] with true, [getErr]
    on those that answer [isErr] with true, and the two predicates are
    complementary.  [expect] returns what [unwrap] returns, and when it
    throws, the error carries the message it was given. *)
Theorem Result_unwrap_getErr_exclusive {W} (r : Result.Result) (s : state W) :
  ((∃ v, Result.unwrap r s = (Normal v, s)) ↔ Result.isOk r = true)
  ∧ ((∃ e, Result.getErr r s = (Normal e, s)) ↔ Result.isErr r = true)
  ∧ Result.isErr r = negb (Result.isOk r)
  ∧ ((∃ v, Result.unwrap r s = (Normal v, s))
     ↔ (∃ e, Result.getErr r s = (Throw e, s)))
  ∧ ((∃ e, Result.getErr r s = (Normal e, s))
     ↔ (∃ e, Result.unwrap r s = (Throw e, s)))
  ∧ (∀ v message, Result.unwrap r s = (Normal v, s) →
                  Result.expect r message s = (Normal v, s))
  ∧ (∀ e message, Result.expect r message s = (Throw e, s) →
                  Js.message e = message).
Proof.
  destruct r as [v|e]; js_unfold; simpl.
  - repeat split; try done; try (intros [? [=]]); eauto.
  - repeat split; try done; try (intros [? [=]]); eauto.
    by intros ? ? [= <-].
Qed.

Lemma Result_unwrap_getErr_exclusive_witness :
  Result.expect (W := unit) (Result.Ok (number 5)) "no value" (mkState () 0)
  = (Normal (number 5), mkState () 0)
  ∧ message (new_Error "no value") = "no value"%string.
Proof.
  split.
  - destruct (Result_unwrap_getErr_exclusive (Result.Ok (number 5))
                (mkState () 0)) as (_ & _ & _ & _ & _ & Hexpect & _).
    apply Hexpect. reflexivity.
  - destruct (Result_unwrap_getErr_exclusive (Result.Err (str "bad"))
                (mkState () 0)) as (_ & _ & _ & _ & _ & _ & Hmessage).
    apply Hmessage. reflexivity.
Defined.

(** How often each method of a result calls the function it is given: [map]
    and [flatMap] call it once on [Ok] and never on [Err]; [unwrapOrElse]
    calls it once on [Err], with the error, and never on [Ok].  When the
    function given to [map] throws, [map] throws the same error and keeps
    the world the function left. *)
Theorem Result_callback_invocations {W} (r : Result.Result) (s : state W) :
  let once_if (b : bool) := (invocations s + (if b then 1 else 0))%nat in
  (∀ fn, invocations (Result.map r fn s).2 = once_if (Result.isOk r))
  ∧ (∀ fn, invocations (Result.flatMap r fn s).2 = once_if (Result.isOk r))
  ∧ (∀ fn, invocations (Result.unwrapOrElse r fn s).2
           = once_if (Result.isErr r))
  ∧ (∀ v fn, r = Result.Ok v → Result.unwrapOrElse r fn s = (Normal v, s))
  ∧ (∀ e fn, r = Result.Err e → Result.unwrapOrElse r fn s = invoke fn e s)
  ∧ (∀ v fn e w, r = Result.Ok v → fn v (world s) = (Throw e, w) →
                 Result.map r fn s = (Throw e, mkState w (S (invocations s)))).
Proof.
  intros once_if. subst once_if. destruct s as [w0 n0].
  destruct r as [v|e]; js_unfold; simpl; repeat split; intros;
    repeat case_match; simplify_eq/=; try done; try lia; congruence.
Qed.

Lemma Result_callback_invocations_witness :
  Result.unwrapOrElse (W := unit)
    (Result.Ok (number 1)) (Client.pure (λ e, e)) (mkState () 0)
  = (Normal (number 1), mkState () 0)
  ∧ Result.unwrapOrElse (W := unit)
      (Result.Err (str "bad")) (Client.pure (λ e, e)) (mkState () 0)
    = (Normal (str "bad"), mkState () 1)
  ∧ Result.map (W := unit) (Result.Ok (number 1))
      (λ _ w, (Throw (new_Error "boom"), w)) (mkState () 0)
    = (Throw (new_Error "boom"), mkState () 1).
Proof.
  split; [|split].
  - destruct (Result_callback_invocations (W := unit)
                (Result.Ok (number 1)) (mkState () 0))
      as (_ & _ & _ & HOk & _).
    by apply HOk.
  - destruct (Result_callback_invocations (W := unit)
                (Result.Err (str "bad")) (mkState () 0))
      as (_ & _ & _ & _ & HErr & _).
    by rewrite (HErr (str "bad")).
  - destruct (Result_callback_invocations (W := unit)
                (Result.Ok (number 1)) (mkState () 0))
      as (_ & _ & _ & _ & _ & Hthrow).
    by apply (Hthrow (number 1)).
Defined.

(** [map] is a functor up to what a caller observes: mapping the identity
    returns the result itself, and mapping [f] and then [g] is mapping
    [v => g(f(v))].  It never changes the variant: the result of [map] on
    [Ok] is an [Ok], and on [Err] the same [Err]. *)
Theorem Result_map_functor {W} (r : Result.Result) (s : state W) :
  Client.outcome (Result.map r (Client.pure (λ v, v))) s = (Normal r, world s)
  ∧ (∀ f g : callback W value value,
        Client.outcome (r' ← Result.map r f; Result.map r' g) s
        = Client.outcome (Result.map r (Client.compose f g)) s)
  ∧ (∀ fn r' s', Result.map r fn s = (Normal r', s') →
                 Result.isOk r' = Result.isOk r).
Proof.
  destruct s as [w0 n0], r as [v|e]; js_unfold; simpl; repeat split; try done.
  - intros f g. destruct (f v w0) as [[u|e] w]; simpl; [|done].
    by destruct (g u w) as [[u'|e] w'].
  - intros fn r' s'. by destruct (fn v w0) as [[u|e] w]; intros [= <- <-].
  - by intros fn r' s' [= <- <-].
Qed.

Lemma Result_map_functor_witness :
  Result.isOk (Result.Ok (number 2)) = Result.isOk (Result.Ok (number 1)).
Proof.
  destruct (Result_map_functor (W := unit) (Result.Ok (number 1))
              (mkState () 0)) as (_ & _ & Hvariant).
  apply (Hvariant (Client.pure (λ _, number 2)) _ (mkState () 1)).
  reflexivity.
Defined.

(** [flatMap] with the laws of a monad, up to what a caller observes:
    [Ok(v).flatMap(fn)] is the call [fn(v)]; [r.flatMap(Result.Ok)] is [r];
    and chaining two [flatMap]s is one [flatMap] with the chained
    function. *)
Theorem Result_flatMap_monad {W} (s : state W) :
  (∀ v fn, Result.flatMap (Result.Ok v) fn s = invoke fn v s)
  ∧ (∀ r, Client.outcome (Result.flatMap r (Client.pure Result.Ok)) s
          = (Normal r, world s))
  ∧ (∀ r (f g : callback W value Result.Result),
        Client.outcome (r' ← Result.flatMap r f; Result.flatMap r' g) s
        = Client.outcome
            (Result.flatMap r
               (Client.arrow (λ v, r' ← invoke f v; Result.flatMap r' g))) s).
Proof.
  destruct s as [w0 n0].
  split; [done|]. split; [by intros [v|e]|].
  intros [v|e] f g; js_unfold; simpl; [|done].
  destruct (f v w0) as [[[u|e']|e'] w]; simpl; try done.
  by destruct (g u w) as [[r'|e'] w'].
Qed.

Lemma flatMap_all_Err {W} (fns : list (callback W value Result.Result))
    (e : value) (s : state W) :
  Client.flatMap_all fns (Result.Err e) s = (Normal (Result.Err e), s).
Proof. induction fns as [|fn fns IH]; [done|]. simpl. js_unfold. apply IH. Qed.

Lemma flatMap_all_app {W} (fns more : list (callback W value Result.Result))
    (r : Result.Result) (s : state W) :
  Client.flatMap_all (fns ++ more) r s
  = (r' ← Client.flatMap_all fns r; Client.flatMap_all more r') s.
Proof.
  revert r s. induction fns as [|fn fns IH]; intros r s; [done|].
  simpl. js_unfold.
  destruct r as [v|e].
  - destruct (fn v (world s)) as [[r'|e'] w]; [|done]. apply IH.
  - rewrite IH. js_unfold. by rewrite !flatMap_all_Err.
Qed.

(** A chain [r.flatMap(f1).flatMap(f2)...] stops at the first failure: once
    a prefix of the chain has produced [Err e], the whole chain returns that
    [Err e] and none of the remaining functions is called, the state being
    the one the prefix left; in particular a chain started on [Err e] calls
    nothing.  A chain never calls more functions than it has. *)
Theorem flatMap_all_short_circuit {W}
    (fns more : list (callback W value Result.Result)) (s : state W) :
  (∀ e, Client.flatMap_all fns (Result.Err e) s = (Normal (Result.Err e), s))
  ∧ (∀ r e s', Client.flatMap_all fns r s = (Normal (Result.Err e), s') →
               Client.flatMap_all (fns ++ more) r s
               = (Normal (Result.Err e), s'))
  ∧ (∀ r, (invocations (Client.flatMap_all fns r s).2
           ≤ invocations s + List.length fns)%nat).
Proof.
  split; [intros; apply flatMap_all_Err|]. split.
  - intros r e s' H. rewrite flatMap_all_app. js_unfold. rewrite H.
    apply flatMap_all_Err.
  - clear more. revert s. induction fns as [|fn fns IH]; intros s r; simpl.
    + js_unfold. simpl. lia.
    + js_unfold. destruct r as [v|e].
      * destruct (fn v (world s)) as [[r'|e'] w]; simpl; [|lia].
        etrans; [apply IH|]. simpl. lia.
      * etrans; [apply IH|]. lia.
Qed.

Lemma flatMap_all_short_circuit_witness :
  Client.flatMap_all (W := unit)
    ([Client.pure (λ _, Result.Err (str "stop"))]
       ++ [Client.pure (λ v, Result.Ok v)])
    (Result.Ok (number 1)) (mkState () 0)
  = (Normal (Result.Err (str "stop")), mkState () 1).
Proof.
  destruct (flatMap_all_short_circuit (W := unit)
              [Client.pure (λ _, Result.Err (str "stop"))]
              [Client.pure (λ v, Result.Ok v)] (mkState () 0))
    as (_ & Hstop & _).
  apply Hstop. reflexivity.
Defined.

(** ** The iterator, beyond the claims *)

(** [peekAt] with an integer index checks it: inside [0, length) it returns
    the element at that position; outside it throws, and for an index
    between -2^53 and 2^53, where the template literal prints the integer in
    decimal, the error message names the index.  It never moves the
    cursor. *)
Theorem peekAt_bounds {T} (this : Iterator.Iterator T) (i : Z) :
  (0 ≤ i < Array.length (Iterator.items this) →
   ∃ x, Iterator.items this !! Z.to_nat i = Some x
        ∧ Iterator.result (Iterator.peekAt i) this = Normal (Some x))
  ∧ (i < 0 ∨ Array.length (Iterator.items this) ≤ i →
     ∃ e, Iterator.result (Iterator.peekAt i) this = Throw e)
  ∧ (i < 0 ∨ Array.length (Iterator.items this) ≤ i →
     Number.safe i →
     Iterator.result (Iterator.peekAt i) this
     = Throw (new_Error ("Index out of bounds: " +:+ pretty i)))
  ∧ Iterator.receiver (Iterator.peekAt i) this = this.
Proof.
  destruct this as [l c]. unfold Iterator.result, Iterator.receiver. simpl.
  assert (Hin : 0 ≤ i < Array.length l →
                ∃ x, l !! Z.to_nat i = Some x ∧ Array.get l i = Some x).
  { intros Hi. unfold Array.length in Hi.
    destruct (lookup_lt_is_Some_2 l (Z.to_nat i)) as [x Hx]; [lia|].
    exists x. split; [done|]. unfold Array.get.
    by destruct (Z.leb_spec 0 i); [|lia]. }
  destruct (Z.ltb_spec i 0), (Z.leb_spec (Array.length l) i); simpl;
    repeat split; try done; try lia; eauto.
  intros Hi. destruct (Hin Hi) as (x & Hx & Hget). exists x. by rewrite Hget.
Qed.

Lemma peekAt_bounds_witness :
  (∃ x, [10; 20; 30] !! Z.to_nat 1 = Some x
        ∧ Iterator.result (Iterator.peekAt 1) (Iterator.from [10; 20; 30])
          = Normal (Some x))
  ∧ Iterator.result (Iterator.peekAt 3) (Iterator.from [10; 20; 30])
    = Throw (new_Error ("Index out of bounds: " +:+ pretty 3)).
Proof.
  destruct (peekAt_bounds (Iterator.from [10; 20; 30]) 1) as (Hin & _).
  destruct (peekAt_bounds (Iterator.from [10; 20; 30]) 3) as (_ & _ & Hout & _).
  split.
  - apply Hin. unfold Array.length. simpl. lia.
  - apply Hout; [unfold Array.length; simpl; lia|unfold Number.safe; lia].
Defined.

Lemma nexts_from {T} (l : list T) (n k : nat) :
  Client.nexts n (Iterator.mkIterator l (Z.of_nat k))
  = ((λ j, l !! j) <$> seq k n, Iterator.mkIterator l (Z.of_nat (k + n))).
Proof.
  revert k. induction n as [|n IH]; intros k.
  - simpl. by rewrite Nat.add_0_r.
  - cbn [Client.nexts]. unfold mbind, Iterator.method_bind, Iterator.next.
    simpl. replace (Z.of_nat k + 1) with (Z.of_nat (S k)) by lia.
    rewrite IH. simpl. rewrite get_of_nat. do 3 f_equal. lia.
Qed.

(** Calling [next] over and over walks the array in order: from a cursor at
    [k], [n] calls return the elements at [k], [k + 1], ..., each [undefined]
    when its position is past the end, and leave the cursor at [k + n].  A
    fresh iterator therefore hands out its first [n] elements for [n] up to
    the length, after exactly [length] calls [hasNext] answers false, and
    one more call returns [undefined]. *)
Theorem nexts_walk {T} (l : list T) (n k : nat) :
  Iterator.result (Client.nexts n) (Iterator.mkIterator l (Z.of_nat k))
  = (λ j, l !! j) <$> seq k n
  ∧ Iterator.index
      (Iterator.receiver (Client.nexts n) (Iterator.mkIterator l (Z.of_nat k)))
    = Z.of_nat (k + n)
  ∧ ((n ≤ List.length l)%nat →
     Iterator.result (Client.nexts n) (Iterator.from l) = Some <$> take n l
     ∧ Iterator.result Iterator.hasNext
         (Iterator.receiver (Client.nexts n) (Iterator.from l))
       = bool_decide (n < List.length l)%nat)
  ∧ Iterator.result Iterator.next
      (Iterator.receiver (Client.nexts (List.length l)) (Iterator.from l))
    = None.
Proof.
  unfold Iterator.result, Iterator.receiver, Iterator.from, Iterator.new_Iterator.
  change 0 with (Z.of_nat 0). rewrite !nexts_from. simpl.
  split; [done|]. split; [done|]. split.
  - intros Hn. split.
    + apply list_eq. intros j. rewrite !list_lookup_fmap.
      destruct (decide (j < n)%nat) as [Hj|Hj].
      * rewrite lookup_seq_lt by done. simpl. rewrite lookup_take_lt by done.
        destruct (lookup_lt_is_Some_2 l j) as [x Hx]; [lia|]. by rewrite Hx.
      * rewrite lookup_seq_ge by lia. simpl.
        by rewrite lookup_take_ge by lia.
    + unfold Array.length. case_bool_decide; [apply Z.ltb_lt|apply Z.ltb_ge]; lia.
  - rewrite get_of_nat. by apply lookup_ge_None.
Qed.

Lemma nexts_walk_witness :
  Iterator.result (Client.nexts 2) (Iterator.from ["a"; "b"; "c"]%string)
  = Some <$> take 2 ["a"; "b"; "c"]%string
  ∧ Iterator.result Iterator.hasNext
      (Iterator.receiver (Client.nexts 2) (Iterator.from ["a"; "b"; "c"]%string))
    = bool_decide (2 < List.length ["a"; "b"; "c"]%string)%nat.
Proof.
  destruct (nexts_walk ["a"; "b"; "c"]%string 2 0) as (_ & _ & Hfresh & _).
  apply Hfresh. simpl. lia.
Defined.

(** With the cursor at or after 0, [hasNext] answers true exactly when
    [peek] and [next] read an element of the array rather than past its
    end; the two return the same, and only [next] moves the cursor.  After any history of
    calls, [reset] puts the iterator back where a fresh one starts: the next
    [n] calls of [next] return what they return on a fresh iterator. *)
Theorem hasNext_peek_reset {T} (this : Iterator.Iterator T) :
  (0 ≤ Iterator.index this →
   (Iterator.result Iterator.hasNext this = true
    ↔ ∃ x, Iterator.result Iterator.peek this = Some x))
  ∧ Iterator.result Iterator.next this = Iterator.result Iterator.peek this
  ∧ Iterator.receiver Iterator.peek this = this
  ∧ (∀ calls (n : nat),
        Iterator.result (Client.nexts n)
          (Iterator.receiver Iterator.reset (Iterator.run calls this))
        = Iterator.result (Client.nexts n) (Iterator.from (Iterator.items this))).
Proof.
  split; [|split; [|split]].
  - intros Hi. rewrite hasNext_true. destruct this as [l i].
    unfold Iterator.result. simpl in *. split.
    + intros Hlt. unfold Array.get, Array.length in *.
      destruct (Z.leb_spec 0 i); [|lia].
      apply lookup_lt_is_Some_2. lia.
    + intros [x Hx]. apply get_in_range in Hx. lia.
  - by destruct this.
  - by destruct this.
  - intros calls n. unfold Iterator.receiver, Iterator.reset, Iterator.set_index.
    simpl. by rewrite run_items.
Qed.

Lemma hasNext_peek_reset_witness :
  Iterator.result Iterator.hasNext (Iterator.from [1; 2]) = true
  ↔ ∃ x, Iterator.result Iterator.peek (Iterator.from [1; 2]) = Some x.
Proof.
  destruct (hasNext_peek_reset (Iterator.from [1; 2])) as (Hpeek & _).
  apply Hpeek. simpl. lia.
Defined.

Section Pipelines.
Context {T : Type}.
Implicit Types (l : list T) (p q : T → bool).

(** With a function of the element alone the array methods are the list
    functions. *)
Lemma map_unary {U} (f : T → U) l : Array.map (Client.unary f) l = f <$> l.
Proof.
  unfold Array.map, Client.unary. generalize 0.
  induction l as [|x l IH]; intros k; simpl; [done|]. by rewrite IH.
Qed.

Lemma filter_unary p l :
  Array.filter (Client.unary p) l = List.filter p l.
Proof.
  unfold Array.filter, Client.unary. generalize 0.
  induction l as [|x l IH]; intros k; simpl; [done|]. by rewrite IH.
Qed.

Lemma find_unary p l : Array.find (Client.unary p) l = List.find p l.
Proof.
  unfold Array.find, Client.unary. generalize 0.
  induction l as [|x l IH]; intros k; simpl; [done|]. by rewrite IH.
Qed.

Lemma some_unary p l : Array.some (Client.unary p) l = existsb p l.
Proof.
  unfold Array.some, Client.unary. generalize 0.
  induction l as [|x l IH]; intros k; simpl; [done|]. rewrite IH.
  by destruct (p x).
Qed.

Lemma every_unary p l : Array.every (Client.unary p) l = forallb p l.
Proof.
  unfold Array.every, Client.unary. generalize 0.
  induction l as [|x l IH]; intros k; simpl; [done|]. rewrite IH.
  by destruct (p x).
Qed.

Lemma reduce_binary {U} (f : U → T → U) (init : U) l :
  Array.reduce (Client.binary f) init l = fold_left f l init.
Proof.
  unfold Array.reduce, Client.binary. generalize 0. revert init.
  induction l as [|x l IH]; intros init k; simpl; [done|]. apply IH.
Qed.

(** Whatever the predicate looks at, [filter] keeps a part of the array, in
    order. *)
Lemma filter_from_sublist (q : T → Z → bool) l (k : Z) :
  Array.filter_from q l k `sublist_of` l.
Proof.
  revert k. induction l as [|x l IH]; intros k; simpl; [done|].
  destruct (q x k); by constructor.
Qed.

Lemma filter_elem_of p l x : x ∈ List.filter p l ↔ x ∈ l ∧ p x = true.
Proof. rewrite !list_elem_of_In. apply filter_In. Qed.

Lemma filter_sublist p l : List.filter p l `sublist_of` l.
Proof.
  induction l as [|x l IH]; simpl; [done|].
  destruct (p x); by constructor.
Qed.

Lemma filter_filter p q l :
  List.filter q (List.filter p l) = List.filter (λ x, p x && q x) l.
Proof.
  induction l as [|x l IH]; simpl; [done|].
  destruct (p x) eqn:Hp; simpl; [|done]. destruct (q x); by rewrite IH.
Qed.

Lemma filter_all p l : forallb p l = true ↔ List.filter p l = l.
Proof.
  induction l as [|x l IH]; simpl; [done|].
  destruct (p x) eqn:Hp; simpl.
  - rewrite IH. split; [by intros ->|by intros [= ->]].
  - split; [done|]. intros H.
    pose proof (filter_sublist p l) as Hsub.
    rewrite H in Hsub. apply sublist_length in Hsub. simpl in Hsub. lia.
Qed.

(** [some] is the negation of [every] for the negated predicate. *)
Lemma some_from_every_from (q : T → Z → bool) l (k : Z) :
  Array.some_from q l k = negb (Array.every_from (λ x i, negb (q x i)) l k).
Proof.
  revert k. induction l as [|x l IH]; intros k; simpl; [done|].
  rewrite IH. by destruct (q x k).
Qed.

(** Both [slice(0, n)] and [slice(n)] cut the array at the same place. *)
Lemma slice_cut l (n : Z) :
  Array.slice l 0 (Some n) = take (Z.to_nat (Array.clamp (Array.length l) n)) l
  ∧ Array.slice l n None = drop (Z.to_nat (Array.clamp (Array.length l) n)) l.
Proof.
  assert (Hc : 0 ≤ Array.clamp (Array.length l) n ≤ Array.length l).
  { unfold Array.clamp, Array.length. destruct (Z.ltb_spec n 0); lia. }
  unfold Array.slice. split.
  - replace (Array.clamp (Array.length l) 0) with 0
      by (unfold Array.clamp, Array.length; simpl; lia).
    by rewrite Z.sub_0_r.
  - apply take_ge. rewrite length_drop. unfold Array.length in *. lia.
Qed.

(** For [n] at or above 0 the cut is after [n] elements. *)
Lemma slice_cut_nonneg l (n : Z) :
  0 ≤ n →
  Array.slice l 0 (Some n) = take (Z.to_nat n) l
  ∧ Array.slice l n None = drop (Z.to_nat n) l.
Proof.
  intros Hn. destruct (slice_cut l n) as [-> ->].
  unfold Array.clamp, Array.length. destruct (Z.ltb_spec n 0); [lia|].
  destruct (Z.le_gt_cases n (Z.of_nat (List.length l))).
  - by rewrite Z.min_l by lia.
  - rewrite Z.min_r by lia. rewrite Nat2Z.id.
    by rewrite !take_ge, !drop_ge by lia.
Qed.

End Pipelines.

(** [map] keeps the length and the order: element [k] of the new iterator
    is the function called with element [k] of the receiver, [k] and the
    receiver's array.  Mapping [f] and then [g] is mapping the function that
    calls [g] with what [f] returns, the same index and the array mapped by
    [f]; for functions of the element alone that is mapping
    [x => g(f(x))]; and mapping the identity gives a fresh iterator over an
    equal array. *)
Theorem Iterator_map_compose {T U} (this : Iterator.Iterator T)
    (f : T → Z → list T → U) :
  (∀ k : nat, Iterator.items (Iterator.result (Iterator.map f) this) !! k
              = (λ x, f x (Z.of_nat k) (Iterator.items this))
                  <$> Iterator.items this !! k)
  ∧ Iterator.result (Iterator.count None) (Iterator.result (Iterator.map f) this)
    = Iterator.result (Iterator.count None) this
  ∧ (∀ V (g : U → Z → list U → V),
        Iterator.result (Iterator.map g) (Iterator.result (Iterator.map f) this)
        = Iterator.result
            (Iterator.map (λ x i a, g (f x i a) i (Array.map f a))) this)
  ∧ (∀ (f' : T → U) V (g : U → V),
        Iterator.result (Iterator.map (Client.unary g))
          (Iterator.result (Iterator.map (Client.unary f')) this)
        = Iterator.result (Iterator.map (Client.unary (λ x, g (f' x)))) this)
  ∧ Iterator.result (Iterator.map (Client.unary (λ x, x))) this
    = Iterator.from (Iterator.items this).
Proof.
  destruct this as [l i]. unfold Iterator.result, Iterator.from. simpl.
  unfold Iterator.new_Iterator.
  assert (Hmap : ∀ {A B} (h : A → Z → list A → B) (a : list A),
             Array.map h a = imap (λ n x, h x (Z.of_nat n) a) a).
  { intros A B h a. unfold Array.map. rewrite map_from_imap.
    apply imap_ext. intros n x _. by rewrite Z.add_0_l. }
  split; [|split; [|split; [|split]]].
  - intros k. rewrite Hmap. apply list_lookup_imap.
  - unfold Array.length. by rewrite Hmap, length_imap.
  - intros V g. f_equal. rewrite !Hmap. apply list_eq. intros k.
    rewrite !list_lookup_imap. by destruct (l !! k).
  - intros f' V g. f_equal. rewrite !map_unary. by rewrite <- list_fmap_compose.
  - f_equal. rewrite map_unary. apply list_fmap_id.
Qed.

(** Whatever the predicate looks at, [filter] keeps a part of the array in
    its original order, and [count(p)] is the number of elements it keeps,
    never above [count()].  With a predicate of the element alone, [filter]
    keeps exactly the elements that satisfy it; filtering by [p] and then by
    [q] is filtering by [x => p(x) && q(x)]; and [all(p)] is true exactly
    when [filter(p)] keeps the whole array. *)
Theorem Iterator_filter_spec {T} (this : Iterator.Iterator T) :
  (∀ predicate,
      Iterator.items (Iterator.result (Iterator.filter predicate) this)
        `sublist_of` Iterator.items this
      ∧ Iterator.result (Iterator.count (Some predicate)) this
        = Array.length
            (Iterator.items (Iterator.result (Iterator.filter predicate) this))
      ∧ Iterator.result (Iterator.count (Some predicate)) this
        ≤ Iterator.result (Iterator.count None) this)
  ∧ (∀ (p : T → bool) x,
        x ∈ Iterator.items
              (Iterator.result (Iterator.filter (Client.unary p)) this)
        ↔ x ∈ Iterator.items this ∧ p x = true)
  ∧ (∀ p q : T → bool,
        Iterator.result (Iterator.filter (Client.unary q))
          (Iterator.result (Iterator.filter (Client.unary p)) this)
        = Iterator.result
            (Iterator.filter (Client.unary (λ x, p x && q x))) this)
  ∧ (∀ p : T → bool,
        Iterator.result (Iterator.all (Client.unary p)) this = true
        ↔ Iterator.items
            (Iterator.result (Iterator.filter (Client.unary p)) this)
          = Iterator.items this).
Proof.
  destruct this as [l i]. unfold Iterator.result. simpl.
  split; [|split; [|split]].
  - intros predicate.
    pose proof (filter_from_sublist (λ value index, predicate value index l) l 0)
      as Hsub.
    split; [exact Hsub|]. split; [done|].
    apply sublist_length in Hsub. unfold Array.length, Array.filter. lia.
  - intros p x. rewrite filter_unary. apply filter_elem_of.
  - intros p q. by rewrite !filter_unary, filter_filter.
  - intros p. rewrite every_unary, filter_unary. apply filter_all.
Qed.

(** [take(n)] and [skip(n)] cut the array at the same place, for every
    integer [n]: what [take] returns followed by what [skip] returns is the
    whole array.  For [n] at or above 0 the cut is after [n] elements (at the
    end, when [n] exceeds the length); for negative [n] it is [-n] elements
    before the end (at the start, when [-n] exceeds the length), so that
    [skip(-1)] keeps the last element only. *)
Theorem take_skip_partition {T} (this : Iterator.Iterator T) (n : Z) :
  let l := Iterator.items this in
  let taken := Iterator.items (Iterator.result (Iterator.take n) this) in
  let skipped := Iterator.items (Iterator.result (Iterator.skip n) this) in
  taken ++ skipped = l
  ∧ (0 ≤ n → taken = take (Z.to_nat n) l ∧ skipped = drop (Z.to_nat n) l)
  ∧ (n < 0 → taken = take (Z.to_nat (Array.length l + n)) l
             ∧ skipped = drop (Z.to_nat (Array.length l + n)) l).
Proof.
  destruct this as [l i]. unfold Iterator.result. simpl.
  split; [|split].
  - destruct (slice_cut l n) as [-> ->]. apply take_drop.
  - apply slice_cut_nonneg.
  - intros Hn. destruct (slice_cut l n) as [-> ->].
    unfold Array.clamp, Array.length. destruct (Z.ltb_spec n 0); [|lia].
    by replace (Z.to_nat (Z.max (Z.of_nat (List.length l) + n) 0))
      with (Z.to_nat (Z.of_nat (List.length l) + n)) by lia.
Qed.

Lemma take_skip_partition_witness :
  Iterator.items (Iterator.result (Iterator.take (-1)) (Iterator.from [1; 2; 3]))
  = take (Z.to_nat (Array.length [1; 2; 3] + -1)) [1; 2; 3]
  ∧ Iterator.items (Iterator.result (Iterator.skip (-1)) (Iterator.from [1; 2; 3]))
    = drop (Z.to_nat (Array.length [1; 2; 3] + -1)) [1; 2; 3].
Proof.
  destruct (take_skip_partition (Iterator.from [1; 2; 3]) (-1)) as (_ & _ & Hneg).
  apply Hneg. lia.
Defined.

Section Scans.
Context {T : Type}.
Implicit Types (l pre post : list T) (test : option T → bool).

(** A loop that stops has not run past the end of the array. *)
Lemma while_loop_in_array test l (fuel : nat) r :
  Iterator.while_loop fuel test l 0 = Some r → 0 ≤ r ≤ Array.length l.
Proof.
  intros (Hr & Hfail & Hpass)%while_loop_result. split; [done|].
  destruct (Z.le_gt_cases r (Array.length l)) as [|Hgt]; [done|].
  specialize (Hpass (Array.length l) ltac:(unfold Array.length in *; lia)).
  rewrite get_past_end in Hpass, Hfail by lia. congruence.
Qed.

(** The loop stops at the same place whatever fuel lets it stop. *)
Lemma while_loop_agree test l (fuel fuel' : nat) index r r' :
  Iterator.while_loop fuel test l index = Some r →
  Iterator.while_loop fuel' test l index = Some r' →
  r = r'.
Proof.
  intros H H'.
  apply (while_loop_more_fuel _ _ _ (fuel `max` fuel')%nat) in H; [|lia].
  apply (while_loop_more_fuel _ _ _ (fuel `max` fuel')%nat) in H'; [|lia].
  congruence.
Qed.

(** Either some element is the first to fail the test, or all pass. *)
Lemma first_failure test l :
  (∃ pre x post, l = pre ++ x :: post
                 ∧ Forall (λ y, test (Some y) = true) pre
                 ∧ test (Some x) = false)
  ∨ Forall (λ y, test (Some y) = true) l.
Proof.
  induction l as [|x l IH]; [by right|].
  destruct (test (Some x)) eqn:Hx.
  - destruct IH as [(pre & y & post & -> & Hpre & Hy)|Hall].
    + left. exists (x :: pre), y, post. split; [done|]. split; [|done].
      by constructor.
    + right. by constructor.
  - left. by exists [], x, l.
Qed.

Lemma while_loop_all_pass test l (fuel : nat) :
  Forall (λ y, test (Some y) = true) l →
  test None = false →
  (List.length l < fuel)%nat →
  Iterator.while_loop fuel test l 0 = Some (Array.length l).
Proof.
  intros Hall Hnone Hfuel.
  rewrite (while_loop_stops test l (List.length l) fuel 0); [done| | |done].
  - intros j Hj. rewrite Z.add_0_l, get_of_nat.
    destruct (lookup_lt_is_Some_2 l j Hj) as [y Hy]. rewrite Hy.
    by apply (Forall_lookup_1 _ _ _ _ Hall Hy).
  - rewrite Z.add_0_l, get_of_nat. by rewrite (proj2 (lookup_ge_None l _)).
Qed.

(** The loop stops, given enough fuel, exactly when some element fails the
    test or [undefined] does. *)
Lemma while_loop_stops_iff test l :
  (∃ (fuel : nat) r, Iterator.while_loop fuel test l 0 = Some r)
  ↔ (∃ x, x ∈ l ∧ test (Some x) = false) ∨ test None = false.
Proof.
  split.
  - intros (fuel & r & (_ & Hfail & _)%while_loop_result).
    destruct (Array.get l r) as [x|] eqn:Hget; [left|by right].
    exists x. split; [|done]. unfold Array.get in Hget.
    destruct (0 <=? r); [|done]. by apply list_elem_of_lookup_2 in Hget.
  - intros Hstop. destruct (first_failure test l)
      as [(pre & x & post & -> & Hpre & Hx)|Hall].
    + exists (S (List.length pre)), (Z.of_nat (List.length pre)).
      apply while_loop_first_failure; [done|done|lia].
    + destruct Hstop as [(x & Hin & Hx)|Hnone].
      * rewrite Forall_forall in Hall. specialize (Hall x Hin). congruence.
      * exists (S (List.length l)), (Array.length l).
        apply while_loop_all_pass; [done|done|lia].
Qed.

End Scans.

(** [takeWhile] is the counterpart of [skipWhile]: when the elements of
    [pre] satisfy the predicate and [x] does not, [takeWhile] on
    [pre ++ x :: post] returns [pre], given fuel for its [length pre + 1]
    tests.  Whenever the two return, on the same iterator and predicate,
    what [takeWhile] returns followed by what [skipWhile] returns is the
    whole array, and every element [takeWhile] returns satisfies the
    predicate. *)
Theorem takeWhile_skipWhile_partition {T} (this : Iterator.Iterator T)
    (predicate : option T → bool) :
  (∀ pre x post (fuel : nat),
      Iterator.items this = pre ++ x :: post →
      Forall (λ y, predicate (Some y) = true) pre →
      predicate (Some x) = false →
      (List.length pre < fuel)%nat →
      Iterator.result (Iterator.takeWhile fuel predicate) this
      = Some (Iterator.new_Iterator pre))
  ∧ (∀ (fuel fuel' : nat) taken skipped,
        Iterator.result (Iterator.takeWhile fuel predicate) this = Some taken →
        Iterator.result (Iterator.skipWhile fuel' predicate) this = Some skipped →
        Iterator.items taken ++ Iterator.items skipped = Iterator.items this)
  ∧ (∀ (fuel : nat) taken,
        Iterator.result (Iterator.takeWhile fuel predicate) this = Some taken →
        Forall (λ y, predicate (Some y) = true) (Iterator.items taken)).
Proof.
  destruct this as [l i].
  unfold Iterator.result, Iterator.takeWhile, Iterator.skipWhile. simpl.
  split; [|split].
  - intros pre x post fuel -> Hpre Hx Hfuel.
    rewrite while_loop_first_failure by done. simpl. do 2 f_equal.
    rewrite slice_upto.
    + rewrite Nat2Z.id. by rewrite take_app_length.
    + unfold Array.length. rewrite length_app. simpl. lia.
  - intros fuel fuel' taken skipped.
    destruct (Iterator.while_loop fuel predicate l 0) as [r|] eqn:Hr;
      simpl; [|done].
    destruct (Iterator.while_loop fuel' predicate l 0) as [r'|] eqn:Hr';
      simpl; [|done].
    intros [= <-] [= <-]. simpl.
    rewrite <- (while_loop_agree _ _ _ _ _ _ _ Hr Hr').
    apply while_loop_in_array in Hr.
    rewrite slice_upto, slice_from by done. apply take_drop.
  - intros fuel taken.
    destruct (Iterator.while_loop fuel predicate l 0) as [r|] eqn:Hr;
      simpl; [|done].
    intros [= <-]. simpl.
    pose proof (while_loop_in_array _ _ _ _ Hr) as Hin.
    apply while_loop_result in Hr as (_ & _ & Hpass).
    rewrite slice_upto by done. apply Forall_lookup_2. intros j y Hy.
    apply lookup_take_Some in Hy as [Hy Hj].
    specialize (Hpass (Z.of_nat j) ltac:(lia)).
    by rewrite get_of_nat, Hy in Hpass.
Qed.

Lemma takeWhile_skipWhile_partition_witness :
  Iterator.result (Iterator.takeWhile 3 less_than_3) (Iterator.from [1; 2; 3; 4])
  = Some (Iterator.new_Iterator [1; 2])
  ∧ Iterator.items (Iterator.new_Iterator [1; 2])
    ++ Iterator.items (Iterator.new_Iterator [3; 4])
    = Iterator.items (Iterator.from [1; 2; 3; 4])
  ∧ Forall (λ y, less_than_3 (Some y) = true)
      (Iterator.items (Iterator.new_Iterator [1; 2])).
Proof.
  destruct (takeWhile_skipWhile_partition (Iterator.from [1; 2; 3; 4]) less_than_3)
    as (Hfirst & Hpart & Hall).
  split; [|split].
  - apply (Hfirst [1; 2] 3 [4]); [reflexivity|by repeat constructor|reflexivity|].
    simpl. lia.
  - apply (Hpart 3%nat 3%nat); reflexivity.
  - apply (Hall 3%nat). reflexivity.
Defined.

(** The scanning methods need not return.  [skipWhile], [takeWhile] and
    [collectWhile] return, for some bound on the number of tests, exactly
    when some element fails the predicate or the predicate fails on
    [undefined]; otherwise their loop reads past the end of the array for
    ever.  [collectUntil] returns exactly when some element, or [undefined],
    satisfies the predicate. *)
Theorem scans_return_iff {T} (this : Iterator.Iterator T)
    (predicate : option T → bool) :
  let stops :=
    (∃ x, x ∈ Iterator.items this ∧ predicate (Some x) = false)
    ∨ predicate None = false in
  ((∃ (fuel : nat) it,
       Iterator.result (Iterator.skipWhile fuel predicate) this = Some it)
   ↔ stops)
  ∧ ((∃ (fuel : nat) it,
         Iterator.result (Iterator.takeWhile fuel predicate) this = Some it)
     ↔ stops)
  ∧ ((∃ (fuel : nat) kept,
         Iterator.result (Iterator.collectWhile fuel predicate) this = Some kept)
     ↔ stops)
  ∧ ((∃ (fuel : nat) kept,
         Iterator.result (Iterator.collectUntil fuel predicate) this = Some kept)
     ↔ (∃ x, x ∈ Iterator.items this ∧ predicate (Some x) = true)
       ∨ predicate None = true).
Proof.
  destruct this as [l i]. intros stops. subst stops.
  unfold Iterator.result, Iterator.skipWhile, Iterator.takeWhile,
    Iterator.collectWhile, Iterator.collectUntil. simpl.
  assert (Hloop : ∀ {R} (test : option T → bool) (k : Z → R),
             (∃ (fuel : nat) (it : R),
                 (index ← Iterator.while_loop fuel test l 0; Some (k index))
                 = Some it)
             ↔ (∃ (fuel : nat) r, Iterator.while_loop fuel test l 0 = Some r)).
  { intros R test k. split.
    - intros (fuel & it & H).
      destruct (Iterator.while_loop fuel test l 0) as [r|] eqn:Hr; [|done].
      eauto.
    - intros (fuel & r & Hr). exists fuel, (k r). by rewrite Hr. }
  rewrite !Hloop, !while_loop_stops_iff. repeat split; try done.
  - intros [(x & Hin & Hx)|Hx]; [left; exists x|right];
      by rewrite ?negb_false_iff in *.
  - intros [(x & Hin & Hx)|Hx]; [left; exists x|right];
      by rewrite ?negb_false_iff.
Qed.

(** [collectWhile] returns the array that [takeWhile] wraps in an iterator,
    and [collectUntil] is [collectWhile] with the predicate negated: on
    [pre ++ x :: post], where no element of [pre] satisfies the predicate
    and [x] does, it returns [pre]. *)
Theorem collectWhile_collectUntil {T} (this : Iterator.Iterator T)
    (predicate : option T → bool) (fuel : nat) :
  Iterator.result (Iterator.collectWhile fuel predicate) this
  = Iterator.items <$> Iterator.result (Iterator.takeWhile fuel predicate) this
  ∧ Iterator.result (Iterator.collectUntil fuel predicate) this
    = Iterator.result
        (Iterator.collectWhile fuel (λ x, negb (predicate x))) this
  ∧ (∀ pre x post,
        Iterator.items this = pre ++ x :: post →
        Forall (λ y, predicate (Some y) = false) pre →
        predicate (Some x) = true →
        (List.length pre < fuel)%nat →
        Iterator.result (Iterator.collectUntil fuel predicate) this = Some pre).
Proof.
  destruct this as [l i].
  unfold Iterator.result, Iterator.takeWhile, Iterator.collectWhile,
    Iterator.collectUntil. simpl.
  split; [by destruct (Iterator.while_loop fuel predicate l 0)|]. split; [done|].
  intros pre x post -> Hpre Hx Hfuel.
  rewrite while_loop_first_failure; [|by eapply Forall_impl;
    [done|intros y ->]|by rewrite Hx|done].
  simpl. f_equal. rewrite slice_upto.
  - rewrite Nat2Z.id. by rewrite take_app_length.
  - unfold Array.length. rewrite length_app. simpl. lia.
Qed.

Lemma collectWhile_collectUntil_witness :
  Iterator.result (Iterator.collectUntil 3 (λ x, negb (less_than_3 x)))
    (Iterator.from [1; 2; 3; 4])
  = Some [1; 2].
Proof.
  destruct (collectWhile_collectUntil (Iterator.from [1; 2; 3; 4])
              (λ x, negb (less_than_3 x)) 3) as (_ & _ & Huntil).
  apply (Huntil [1; 2] 3 [4]); [reflexivity|by repeat constructor|reflexivity|].
  simpl. lia.
Defined.

Section Folds.
Context {T : Type}.
Implicit Types (l : list T).

(** [forEach] and [reduce] walk the array from left to right, knowing the
    position they are at. *)
Lemma forEach_from_fold {S} (body : T → Z → S → S) l (k : Z) (s : S) :
  Array.forEach_from body l k s
  = fold_left (λ s p, body p.2 p.1 s)
      (imap (λ n x, (k + Z.of_nat n, x)) l) s.
Proof.
  revert k s. induction l as [|x l IH]; intros k s; simpl; [done|].
  rewrite IH, Z.add_0_r. f_equal. apply imap_ext. intros n y _. simpl.
  f_equal. lia.
Qed.

Lemma reduce_from_fold {U} (fn : U → T → Z → U) l (k : Z) (acc : U) :
  Array.reduce_from fn l k acc
  = fold_left (λ acc p, fn acc p.2 p.1)
      (imap (λ n x, (k + Z.of_nat n, x)) l) acc.
Proof.
  revert k acc. induction l as [|x l IH]; intros k acc; simpl; [done|].
  rewrite IH, Z.add_0_r. f_equal. apply imap_ext. intros n y _. simpl.
  f_equal. lia.
Qed.

Lemma forEach_from_unary {S} (fn : T → S → S) l (k : Z) (s : S) :
  Array.forEach_from (λ value _, fn value) l k s
  = fold_left (λ s x, fn x s) l s.
Proof. revert k s. induction l as [|x l IH]; intros k s; simpl; [done|apply IH]. Qed.

Lemma fold_left_snoc l (acc : list T) :
  fold_left (λ log x, log ++ [x]) l acc = acc ++ l.
Proof.
  revert acc. induction l as [|x l IH]; intros acc; simpl.
  - by rewrite app_nil_r.
  - rewrite IH. by rewrite <- app_assoc.
Qed.

Lemma fold_left_count l (n : Z) :
  fold_left (λ n _, n + 1) l n = n + Array.length l.
Proof.
  revert n. induction l as [|x l IH]; intros n; unfold Array.length in *; simpl.
  - lia.
  - rewrite IH. lia.
Qed.

Lemma forEach_from_concat {U} (g : T → list U) l (k : Z) (acc : list U) :
  Array.forEach_from (λ value _ result_, Array.concat result_ (g value)) l k acc
  = acc ++ (l ≫= g).
Proof.
  revert k acc. induction l as [|x l IH]; intros k acc; simpl.
  - by rewrite app_nil_r.
  - rewrite IH. unfold Array.concat. by rewrite <- app_assoc.
Qed.

End Folds.

(** [forEach] calls its function once for every element, in the order of
    the array, with the element, its index and the array: it is a left fold
    over the elements paired with their positions, and [reduce] is the same
    fold with the accumulator in front.  With a function that appends the
    element to a log, the log ends up equal to the array.  With a reducer of
    the accumulator and the element alone, [reduce] is the plain left fold;
    reducing with [(n, _) => n + 1] from 0 counts the elements, as [count()]
    does; and reducing an array is reducing its second part from the result
    of reducing its first part. *)
Theorem forEach_reduce_fold {T} (this : Iterator.Iterator T) :
  let positions := imap (λ n x, (Z.of_nat n, x)) (Iterator.items this) in
  (∀ S (fn : T → Z → list T → S → S) (s : S),
      Iterator.result (Iterator.forEach fn s) this
      = fold_left (λ s p, fn p.2 p.1 (Iterator.items this) s) positions s)
  ∧ (∀ U (fn : U → T → Z → list T → U) (initialValue : U),
        Iterator.result (Iterator.reduce fn initialValue) this
        = fold_left (λ acc p, fn acc p.2 p.1 (Iterator.items this))
            positions initialValue)
  ∧ Iterator.result (Iterator.forEach (λ x _ _ log, log ++ [x]) []) this
    = Iterator.items this
  ∧ (∀ U (f : U → T → U) (initialValue : U),
        Iterator.result (Iterator.reduce (Client.binary f) initialValue) this
        = fold_left f (Iterator.items this) initialValue)
  ∧ Iterator.result (Iterator.reduce (Client.binary (λ n _, n + 1)) 0) this
    = Iterator.result (Iterator.count None) this
  ∧ (∀ U (f : U → T → U) (initialValue : U) first second,
        Iterator.items this = first ++ second →
        Iterator.result (Iterator.reduce (Client.binary f) initialValue) this
        = Iterator.result
            (Iterator.reduce (Client.binary f)
               (Iterator.result (Iterator.reduce (Client.binary f) initialValue)
                  (Iterator.from first)))
            (Iterator.from second)).
Proof.
  destruct this as [l i]. intros positions. subst positions.
  unfold Iterator.result. simpl.
  split; [|split; [|split; [|split; [|split]]]].
  - intros S fn s. unfold Array.forEach. by rewrite forEach_from_fold.
  - intros U fn initialValue. unfold Array.reduce. by rewrite reduce_from_fold.
  - unfold Array.forEach.
    by rewrite (forEach_from_unary (λ x log, log ++ [x])), fold_left_snoc.
  - intros U f initialValue. apply reduce_binary.
  - by rewrite reduce_binary, fold_left_count.
  - intros U f initialValue first second ->. rewrite !reduce_binary.
    apply fold_left_app.
Qed.

Lemma forEach_reduce_fold_witness :
  Iterator.result (Iterator.reduce (Client.binary Z.add) 0)
    (Iterator.from [1; 2; 3])
  = Iterator.result
      (Iterator.reduce (Client.binary Z.add)
         (Iterator.result (Iterator.reduce (Client.binary Z.add) 0)
            (Iterator.from [1])))
      (Iterator.from [2; 3]).
Proof.
  destruct (forEach_reduce_fold (Iterator.from [1; 2; 3]))
    as (_ & _ & _ & _ & _ & H).
  by apply H.
Defined.

(** [chain] is the flat map of the array: it concatenates, in order, the
    arrays of the iterators that the function returns, so an element is in
    the result exactly when it is in the iterator returned for some element
    of the receiver.  Chaining with [x => Iterator.from([x])] copies the
    array, and chaining with [x => Iterator.from([f(x)])] is [map(f)]. *)
Theorem chain_flat_map {T U} (this : Iterator.Iterator T)
    (fn : T → Iterator.Iterator U) :
  Iterator.items (Iterator.result (Iterator.chain fn) this)
  = Iterator.items this ≫= (λ x, Iterator.items (fn x))
  ∧ (∀ y, y ∈ Iterator.items (Iterator.result (Iterator.chain fn) this)
          ↔ ∃ x, y ∈ Iterator.items (fn x) ∧ x ∈ Iterator.items this)
  ∧ Iterator.result (Iterator.chain (λ x, Iterator.from [x])) this
    = Iterator.from (Iterator.items this)
  ∧ (∀ f : T → U,
        Iterator.result (Iterator.chain (λ x, Iterator.from [f x])) this
        = Iterator.result (Iterator.map (Client.unary f)) this).
Proof.
  assert (Hitems : ∀ {V} (g : T → Iterator.Iterator V),
             Iterator.items (Iterator.result (Iterator.chain g) this)
             = Iterator.items this ≫= (λ x, Iterator.items (g x))).
  { intros V g. destruct this as [l i]. unfold Iterator.result. simpl.
    unfold Array.forEach.
    rewrite (forEach_from_concat (λ x, Array.map (λ value _ _, value)
                                         (Iterator.items (g x)))).
    simpl. apply list_bind_ext; [|done]. intros x.
    rewrite (map_unary (λ value, value)). apply list_fmap_id. }
  assert (Hfresh : ∀ {V} (g : T → Iterator.Iterator V),
             Iterator.result (Iterator.chain g) this
             = Iterator.from
                 (Iterator.items (Iterator.result (Iterator.chain g) this))).
  { intros V g. by destruct this. }
  split; [apply Hitems|]. split; [|split].
  - intros y. rewrite Hitems. apply list_elem_of_bind.
  - rewrite Hfresh, Hitems. f_equal. clear.
    induction (Iterator.items this) as [|x l IH]; [done|].
    rewrite bind_cons, IH. done.
  - intros f. rewrite Hfresh, Hitems. destruct this as [l i].
    unfold Iterator.result, Iterator.from. simpl. f_equal.
    rewrite map_unary. clear. induction l as [|x l IH]; [done|].
    rewrite bind_cons, IH. done.
Qed.

(** [enumerate] pairs every element with its position: element [k] of the
    new iterator is [[k, x]] for the element [x] at [k] of the receiver.  The
    second components are the array of the receiver and the first
    components are what [Iterator.range(length)] holds. *)
Theorem enumerate_positions {T} (this : Iterator.Iterator T) :
  let pairs := Iterator.items (Iterator.result Iterator.enumerate this) in
  (∀ k : nat, pairs !! k = (λ x, (Z.of_nat k, x)) <$> Iterator.items this !! k)
  ∧ pairs.*2 = Iterator.items this
  ∧ pairs.*1
    = Iterator.items
        (Iterator.range (Array.length (Iterator.items this)) None).
Proof.
  destruct this as [l i]. unfold Iterator.result. simpl.
  unfold Array.map_indexed. rewrite map_from_imap.
  split; [|split].
  - intros k. rewrite list_lookup_imap. by rewrite Z.add_0_l.
  - rewrite fmap_imap. simpl. clear i.
    apply list_eq. intros k. rewrite list_lookup_imap. by destruct (l !! k).
  - unfold Iterator.range. simpl. rewrite range_loop_spec. simpl.
    rewrite fmap_imap. apply list_eq. intros k.
    rewrite list_lookup_imap. unfold Array.length. rewrite Z.sub_0_r.
    destruct (decide (k < List.length l)%nat) as [Hk|Hk].
    + rewrite lookup_seqZ_lt by lia.
      by destruct (lookup_lt_is_Some_2 l k Hk) as [x ->].
    + rewrite lookup_seqZ_ge by lia.
      by rewrite (proj2 (lookup_ge_None l k)) by lia.
Qed.

(** With a predicate of the element alone, [find] looks for the first
    element that satisfies it, the head of what [filter] keeps, and answers
    with it unless it is [null] or [undefined]: then, as when nothing is
    found, it answers [null].  So it answers [null] whenever [any] answers
    false, and only then when the array holds no [null] or [undefined].
    [any] is true exactly when some element satisfies the predicate and
    [all] exactly when every element does.  Whatever the predicate looks at,
    [any(p)] is the negation of [all] for the negated predicate, and on an
    empty array [any] is false and [all] is true. *)
Theorem find_any_all {T} `{!Nullish T} (this : Iterator.Iterator T) :
  (∀ p : T → bool,
      Iterator.result (Iterator.find (Client.unary p)) this
      = coalesce_null
          (head (Iterator.items
                   (Iterator.result (Iterator.filter (Client.unary p)) this))))
  ∧ (∀ (p : T → bool) pre x post,
        Iterator.items this = pre ++ x :: post →
        Forall (λ y, p y = false) pre → p x = true →
        Iterator.result (Iterator.find (Client.unary p)) this
        = if nullish x then None else Some x)
  ∧ (∀ p : T → bool,
        Iterator.result (Iterator.any (Client.unary p)) this = false →
        Iterator.result (Iterator.find (Client.unary p)) this = None)
  ∧ (∀ p : T → bool,
        (∀ x, x ∈ Iterator.items this → nullish x = false) →
        (Iterator.result (Iterator.find (Client.unary p)) this = None
         ↔ Iterator.result (Iterator.any (Client.unary p)) this = false))
  ∧ (∀ p : T → bool,
        Iterator.result (Iterator.any (Client.unary p)) this = true
        ↔ ∃ x, x ∈ Iterator.items this ∧ p x = true)
  ∧ (∀ p : T → bool,
        Iterator.result (Iterator.all (Client.unary p)) this = true
        ↔ ∀ x, x ∈ Iterator.items this → p x = true)
  ∧ (∀ predicate,
        Iterator.result (Iterator.any predicate) this
        = negb (Iterator.result
                  (Iterator.all (λ x i a, negb (predicate x i a))) this))
  ∧ (Iterator.items this = [] →
     ∀ predicate,
       Iterator.result (Iterator.any predicate) this = false
       ∧ Iterator.result (Iterator.all predicate) this = true).
Proof.
  destruct this as [l i]. unfold Iterator.result. simpl.
  assert (Hhead : ∀ p : T → bool, head (List.filter p l) = List.find p l).
  { intros p. clear. induction l as [|x l IH]; simpl; [done|]. by destruct (p x). }
  assert (Hnone : ∀ p : T → bool, List.find p l = None ↔ existsb p l = false).
  { intros p. clear. induction l as [|x l IH]; simpl; [done|]. by destruct (p x). }
  split; [|split; [|split; [|split; [|split; [|split; [|split]]]]]].
  - intros p. by rewrite find_unary, filter_unary, Hhead.
  - intros p pre x post -> Hpre Hx. rewrite find_unary.
    replace (List.find p (pre ++ x :: post)) with (Some x); [done|].
    clear -Hpre Hx.
    induction Hpre as [|y pre Hy _ IH]; simpl; [by rewrite Hx|by rewrite Hy].
  - intros p. rewrite some_unary, find_unary. intros Hany.
    by rewrite (proj2 (Hnone p) Hany).
  - intros p Hnullish. rewrite some_unary, find_unary, <- Hnone.
    destruct (List.find p l) as [x|] eqn:Hfind; simpl; [|done].
    apply find_some in Hfind as [Hin _]. apply list_elem_of_In in Hin.
    by rewrite (Hnullish x Hin).
  - intros p. rewrite some_unary, existsb_exists.
    by setoid_rewrite list_elem_of_In.
  - intros p. rewrite every_unary, forallb_forall.
    by setoid_rewrite list_elem_of_In.
  - intros predicate. apply some_from_every_from.
  - by intros ->.
Qed.

Lemma find_any_all_witness :
  Iterator.result (Iterator.find (Client.unary (λ x, 2 <? x)))
    (Iterator.from [1; 2; 3; 4])
  = (if nullish 3 then None else Some 3)
  ∧ Iterator.result (Iterator.find (Client.unary (λ _ : value, true)))
      (Iterator.from [undefined; number 1])
    = (if nullish undefined then None else Some undefined)
  ∧ Iterator.result (Iterator.any (Client.unary (λ x : Z, 2 <? x)))
      (Iterator.from []) = false.
Proof.
  split; [|split].
  - destruct (find_any_all (Iterator.from [1; 2; 3; 4])) as (_ & Hfirst & _).
    apply (Hfirst (λ x, 2 <? x) [1; 2] 3 [4]);
      [reflexivity|by repeat constructor|reflexivity].
  - destruct (find_any_all (Iterator.from [undefined; number 1]))
      as (_ & Hfirst & _).
    apply (Hfirst (λ _, true) [] undefined [number 1]);
      [reflexivity|constructor|reflexivity].
  - destruct (find_any_all (Iterator.from ([] : list Z)))
      as (_ & _ & _ & _ & _ & _ & _ & Hempty).
    by apply Hempty.
Defined.

(** [zip] can be undone on the side of the receiver: the first components
    of the pairs are the array of the receiver, whatever the other iterator
    is.  The second components are what the other iterator holds at the
    positions of the receiver, so they give back the other array, cut to the
    length of the receiver, when the other iterator is at least as long. *)
Theorem zip_unzip {T U} (this : Iterator.Iterator T)
    (other : Iterator.Iterator U) :
  let pairs := Iterator.items (Iterator.result (Iterator.zip other) this) in
  pairs.*1 = Iterator.items this
  ∧ pairs.*2
    = (λ n, Iterator.items other !! n)
        <$> seq 0 (List.length (Iterator.items this))
  ∧ ((List.length (Iterator.items this)
      ≤ List.length (Iterator.items other))%nat →
     pairs.*2
     = Some <$> take (List.length (Iterator.items this)) (Iterator.items other)).
Proof.
  intros pairs. subst pairs. rewrite zip_items.
  assert (Hsnd : (imap (λ n x, (x, Iterator.items other !! n))
                    (Iterator.items this)).*2
                 = (λ n, Iterator.items other !! n)
                     <$> seq 0 (List.length (Iterator.items this))).
  { rewrite fmap_imap. apply list_eq. intros k.
    rewrite list_lookup_imap, list_lookup_fmap.
    destruct (decide (k < List.length (Iterator.items this))%nat) as [Hk|Hk].
    - rewrite lookup_seq_lt by done.
      by destruct (lookup_lt_is_Some_2 _ k Hk) as [x ->].
    - rewrite lookup_seq_ge by lia.
      by rewrite (proj2 (lookup_ge_None (Iterator.items this) k)) by lia. }
  split; [|split; [exact Hsnd|]].
  - rewrite fmap_imap. apply list_eq. intros k. rewrite list_lookup_imap.
    by destruct (Iterator.items this !! k).
  - intros Hle. rewrite Hsnd. apply list_eq. intros k.
    rewrite !list_lookup_fmap.
    destruct (decide (k < List.length (Iterator.items this))%nat) as [Hk|Hk].
    + rewrite lookup_seq_lt, lookup_take_lt by done. simpl.
      assert (Hko : (k < List.length (Iterator.items other))%nat) by lia.
      by destruct (lookup_lt_is_Some_2 (Iterator.items other) k Hko) as [y ->].
    + rewrite lookup_seq_ge, lookup_take_ge by lia. done.
Qed.

Lemma zip_unzip_witness :
  (Iterator.items
     (Iterator.result (Iterator.zip (Iterator.from ["a"; "b"; "c"]%string))
        (Iterator.from [1; 2]))).*2
  = Some <$> take (List.length [1; 2]) ["a"; "b"; "c"]%string.
Proof.
  destruct (zip_unzip (Iterator.from [1; 2])
              (Iterator.from ["a"; "b"; "c"]%string)) as (_ & _ & Hlong).
  apply Hlong. simpl. lia.
Defined.

Lemma range_items (a b : Z) :
  Iterator.items (Iterator.range a (Some b)) = seqZ a (b - a).
Proof. unfold Iterator.range. simpl. by rewrite range_loop_spec. Qed.

Lemma seqZ_split (a n k : Z) :
  0 ≤ k ≤ n → seqZ a n = seqZ a k ++ seqZ (a + k) (n - k).
Proof.
  intros Hk. rewrite <- seqZ_app by lia. f_equal. lia.
Qed.

(** What [range] holds, with exact counting. *)
Lemma range_exact_contents (a b : Z) :
  (∀ x, x ∈ Iterator.items (Iterator.range a (Some b)) ↔ a ≤ x < b)
  ∧ NoDup (Iterator.items (Iterator.range a (Some b)))
  ∧ Iterator.result (Iterator.count None) (Iterator.range a (Some b))
    = Z.max 0 (b - a)
  ∧ Iterator.result Iterator.hasNext (Iterator.range a (Some b)) = (a <? b)
  ∧ (∀ k, 0 ≤ k →
          Iterator.result (Iterator.skip k) (Iterator.range a (Some b))
          = Iterator.range (a + k) (Some b))
  ∧ (∀ k, 0 ≤ k →
          Iterator.result (Iterator.take k) (Iterator.range a (Some b))
          = Iterator.range a (Some (Z.min (a + k) b))).
Proof.
  assert (Hlen : Array.length (Iterator.items (Iterator.range a (Some b)))
                 = Z.max 0 (b - a)).
  { rewrite range_items. unfold Array.length. rewrite length_seqZ. lia. }
  assert (Hfresh : ∀ c d, Iterator.range c (Some d)
                          = Iterator.new_Iterator (seqZ c (d - c))).
  { intros c d. unfold Iterator.range. simpl. by rewrite range_loop_spec. }
  split; [|split; [|split; [|split; [|split]]]].
  - intros x. rewrite range_items, elem_of_seqZ. lia.
  - rewrite range_items. apply NoDup_seqZ.
  - exact Hlen.
  - unfold Iterator.result, Iterator.hasNext. rewrite Hfresh in *. simpl in *.
    rewrite Hlen. destruct (Z.ltb_spec a b), (Z.ltb_spec 0 (Z.max 0 (b - a)));
      lia.
  - intros k Hk. rewrite !Hfresh. unfold Iterator.result. simpl. f_equal.
    destruct (slice_cut_nonneg (seqZ a (b - a)) k Hk) as [_ ->].
    destruct (Z.le_gt_cases k (b - a)) as [Hin|Hout].
    + rewrite (seqZ_split a (b - a) k) by lia.
      rewrite drop_app_length'; [|rewrite length_seqZ; lia].
      f_equal. lia.
    + rewrite drop_ge by (rewrite length_seqZ; lia).
      by rewrite seqZ_nil by lia.
  - intros k Hk. rewrite !Hfresh. unfold Iterator.result. simpl. f_equal.
    destruct (slice_cut_nonneg (seqZ a (b - a)) k Hk) as [-> _].
    destruct (Z.le_gt_cases k (b - a)) as [Hin|Hout].
    + rewrite (seqZ_split a (b - a) k) by lia.
      rewrite take_app_length'; [|rewrite length_seqZ; lia].
      f_equal. lia.
    + rewrite take_ge by (rewrite length_seqZ; lia). f_equal. lia.
Qed.

(** For integers [a] and [b] between -2^53 and 2^53, the iterator that
    [range(a, b)] returns holds exactly the integers [x] with [a <= x < b],
    each once; it has [max(0, b - a)] elements, so it is empty when
    [b <= a], and its [hasNext] first answers [a < b].  Skipping [k] elements
    of it, for [k] at or above 0 with [a + k] up to 2^53, gives what
    [range(a + k, b)] returns, and taking [k] gives what
    [range(a, min(a + k, b))] returns. *)
Theorem range_contents (a b : Z) (fuel : nat) :
  Number.safe a → Number.safe b →
  (Z.to_nat (b - a) < fuel)%nat →
  ∃ it, Iterator.range_double fuel a (Some b) = Some it
        ∧ (∀ x, x ∈ Iterator.items it ↔ a ≤ x < b)
        ∧ NoDup (Iterator.items it)
        ∧ Iterator.result (Iterator.count None) it = Z.max 0 (b - a)
        ∧ Iterator.result Iterator.hasNext it = (a <? b)
        ∧ (∀ k, 0 ≤ k → Number.safe (a + k) →
                Iterator.range_double fuel (a + k) (Some b)
                = Some (Iterator.result (Iterator.skip k) it))
        ∧ (∀ k, 0 ≤ k →
                Iterator.range_double fuel a (Some (Z.min (a + k) b))
                = Some (Iterator.result (Iterator.take k) it)).
Proof.
  intros Ha Hb Hfuel. exists (Iterator.range a (Some b)).
  destruct (range_exact_contents a b)
    as (Hin & Hnodup & Hcount & Hnext & Hskip & Htake).
  split; [by apply range_double_safe|].
  split; [done|]. split; [done|]. split; [done|]. split; [done|]. split.
  - intros k Hk Hak. rewrite Hskip by done.
    apply range_double_safe; [done|done|lia].
  - intros k Hk. rewrite Htake by done.
    apply range_double_safe; [done|unfold Number.safe in *; lia|lia].
Qed.

Lemma range_contents_witness :
  ∃ it, Iterator.range_double 6 3 (Some 8) = Some it
        ∧ Iterator.range_double 6 (3 + 2) (Some 8)
          = Some (Iterator.result (Iterator.skip 2) it).
Proof.
  destruct (range_contents 3 8 6) as (it & Hit & _ & _ & _ & _ & Hskip & _);
    [unfold Number.safe; lia|unfold Number.safe; lia|simpl; lia|].
  exists it. split; [done|]. apply Hskip; [lia|unfold Number.safe; lia].
Defined.
